(** * The flat-outline transform of the ontology editor

    A shallow embedding of [src/utils.ts] ([flattenJson], [nestJson],
    [checkMatch], [getHashTags]) and of the row editor
    [handleRowChange] of [src/components/OntologyEditor.tsx], with the
    properties the specification states about them.

    Conventions of the embedding:
    - a JavaScript string is the list of its UTF-16 code units;
    - a JavaScript number that is a depth or an index is an integer
      ([Z] or [nat]); a number that is a JSON payload is a binary64
      float;
    - an object is the list of its own properties in creation order;
      [obj[k] = v] overwrites the slot of [k] when there is one and
      creates a new last slot otherwise (the engine's enumeration of
      integer-like keys ahead of the others, and the accessor
      [__proto__] that plain objects inherit, are not modelled);
    - the objects [nestJson] builds and mutates live in a store of
      cells addressed by location, because the stack of [nestJson]
      holds references into the object under construction;
    - [Math.random] is an input of the run: a stream of identifiers. *)

From Stdlib Require Import ZArith NArith String Ascii PrimFloat DecimalNat.
From stdpp Require Import base option list gmap.

Set Warnings "-register-all".
Local Open Scope Z_scope.

(** ** Strings *)

Abbreviation jsstring := (list N).

Definition js (s : string) : jsstring :=
  (fun a => N_of_ascii a) <$> list_ascii_of_string s.
Arguments js s%_string.

Fixpoint uint_units (d : Decimal.uint) : jsstring :=
  match d with
  | Decimal.Nil => []
  | Decimal.D0 d => 48%N :: uint_units d
  | Decimal.D1 d => 49%N :: uint_units d
  | Decimal.D2 d => 50%N :: uint_units d
  | Decimal.D3 d => 51%N :: uint_units d
  | Decimal.D4 d => 52%N :: uint_units d
  | Decimal.D5 d => 53%N :: uint_units d
  | Decimal.D6 d => 54%N :: uint_units d
  | Decimal.D7 d => 55%N :: uint_units d
  | Decimal.D8 d => 56%N :: uint_units d
  | Decimal.D9 d => 57%N :: uint_units d
  end.

(** The template literal [`[${index}]`]. *)
Definition index_key (index : nat) : jsstring :=
  js "[" ++ uint_units (Nat.to_uint index) ++ js "]".

(** ECMAScript WhiteSpace and LineTerminator code points, the ones
    [String.prototype.trim] strips. *)
Definition is_white_space (c : N) : bool :=
  ((9 <=? c) && (c <=? 13) || (c =? 32) || (c =? 160) || (c =? 5760)
   || (8192 <=? c) && (c <=? 8202) || (c =? 8232) || (c =? 8233)
   || (c =? 8239) || (c =? 8287) || (c =? 12288) || (c =? 65279))%N.

Fixpoint trim_start (s : jsstring) : jsstring :=
  match s with
  | c :: s' => if is_white_space c then trim_start s' else s
  | [] => []
  end.

Definition trim_end (s : jsstring) : jsstring :=
  reverse (trim_start (reverse s)).

Definition trim (s : jsstring) : jsstring := trim_end (trim_start s).

Fixpoint starts_with (pat s : jsstring) : bool :=
  match pat, s with
  | [], _ => true
  | p :: pat', c :: s' => (p =? c)%N && starts_with pat' s'
  | _ :: _, [] => false
  end.

(** [source.includes(pat)]: [pat] occurs at some position of [source]. *)
Fixpoint includes (source pat : jsstring) : bool :=
  starts_with pat source ||
  match source with
  | [] => false
  | _ :: source' => includes source' pat
  end.

(** ['#'.repeat(count)]; a negative count raises a RangeError. *)
Definition hash : N := 35%N.

Definition repeat_hash (count : Z) : option jsstring :=
  if count <? 0 then None else Some (replicate (Z.to_nat count) hash).

(** ** JSON values *)

Inductive json :=
| JNull
| JBool (b : bool)
| JNum (x : float)
| JStr (s : jsstring)
| JArray (items : list json)
| JObject (members : list (jsstring * json)).

(** [typeof v === 'object'] holds of [null], arrays and objects. *)
Definition typeof_object (v : json) : bool :=
  match v with
  | JNull | JArray _ | JObject _ => true
  | _ => false
  end.

Definition typeof_string (v : json) : bool :=
  match v with
  | JStr _ => true
  | _ => false
  end.

Definition is_null (v : json) : bool :=
  match v with
  | JNull => true
  | _ => false
  end.

Definition isArray (v : json) : bool :=
  match v with
  | JArray _ => true
  | _ => false
  end.

(** ToBoolean. *)
Definition truthy (v : json) : bool :=
  match v with
  | JNull => false
  | JBool b => b
  | JNum x => negb (PrimFloat.eqb x 0%float || PrimFloat.is_nan x)
  | JStr s => negb (bool_decide (s = []))
  | JArray _ | JObject _ => true
  end.

Definition scalar (v : json) : bool :=
  match v with
  | JArray _ | JObject _ => false
  | _ => true
  end.

(** ** Rows *)

Module FlatNode.
Record t := mk {
  id : jsstring;
  key : jsstring;
  value : json;
  depth : Z;
  originalLine : option Z;
  isMatch : option bool
}.
End FlatNode.
Abbreviation FlatNode := FlatNode.t.

(** The object literal [{ id, key, value, depth }]. *)
Definition row (id key : jsstring) (value : json) (depth : Z) : FlatNode :=
  FlatNode.mk id key value depth None None.

Module DocumentData.
Record t := mk {
  id : jsstring;
  name : jsstring;
  sourceText : jsstring;
  flatNodes : list FlatNode;
  rawJson : json
}.
End DocumentData.
Abbreviation DocumentData := DocumentData.t.

(** ** Identifiers

    [generateId] reads [Math.random], which no argument of
    [flattenJson] determines.  A run is described by the stream [rnd]
    of the identifiers that its successive calls return; the state
    threaded through [flattenJson] is the number of calls made. *)

Abbreviation entropy := (nat -> jsstring).

Definition generateId (rnd : entropy) (n : nat) : jsstring * nat :=
  (rnd n, S n).

(** The marker a container row carries, [value: '']. *)
Definition empty_marker : json := JStr [].

(** ** flattenJson *)

Fixpoint flattenJson (rnd : entropy) (data : json) (depth : Z) (n : nat)
  : list FlatNode * nat :=
  match data with
  | JArray items =>
      (fix forEach (items : list json) (index : nat)
           (nodes : list FlatNode) (n : nat) : list FlatNode * nat :=
         match items with
         | [] => (nodes, n)
         | item :: rest =>
             if typeof_object item then
               let '(i, n) := generateId rnd n in
               let nodes := nodes ++ [row i (index_key index) empty_marker depth] in
               let '(sub, n) := flattenJson rnd item (depth + 1) n in
               forEach rest (S index) (nodes ++ sub) n
             else
               let '(i, n) := generateId rnd n in
               forEach rest (S index)
                 (nodes ++ [row i (index_key index) item depth]) n
         end) items 0%nat [] n
  | JObject members =>
      (fix forEach (members : list (jsstring * json))
           (nodes : list FlatNode) (n : nat) : list FlatNode * nat :=
         match members with
         | [] => (nodes, n)
         | (key, value) :: rest =>
             if typeof_object value && negb (is_null value) then
               let '(i, n) := generateId rnd n in
               let nodes := nodes ++ [row i key empty_marker depth] in
               let '(sub, n) := flattenJson rnd value (depth + 1) n in
               forEach rest (nodes ++ sub) n
             else
               let '(i, n) := generateId rnd n in
               forEach rest (nodes ++ [row i key value depth]) n
         end) members [] n
  | _ => ([], n)
  end.

(** The two [forEach] loops of [flattenJson] as functions of their
    own: what one turn of each callback appends to [nodes], and the
    loops over the elements and over the members.  [flattenJson_array]
    and [flattenJson_object] below show that [flattenJson] runs
    them. *)
Definition element_rows (rnd : entropy) (depth : Z) (index : nat)
    (item : json) (n : nat) : list FlatNode * nat :=
  if typeof_object item then
    let '(i, n) := generateId rnd n in
    let '(sub, n) := flattenJson rnd item (depth + 1) n in
    (row i (index_key index) empty_marker depth :: sub, n)
  else
    let '(i, n) := generateId rnd n in
    ([row i (index_key index) item depth], n).

Definition member_rows (rnd : entropy) (depth : Z) (key : jsstring)
    (value : json) (n : nat) : list FlatNode * nat :=
  if typeof_object value && negb (is_null value) then
    let '(i, n) := generateId rnd n in
    let '(sub, n) := flattenJson rnd value (depth + 1) n in
    (row i key empty_marker depth :: sub, n)
  else
    let '(i, n) := generateId rnd n in
    ([row i key value depth], n).

Fixpoint forEach_items (rnd : entropy) (depth : Z) (items : list json)
    (index : nat) (nodes : list FlatNode) (n : nat) : list FlatNode * nat :=
  match items with
  | [] => (nodes, n)
  | item :: rest =>
      let '(rows, n) := element_rows rnd depth index item n in
      forEach_items rnd depth rest (S index) (nodes ++ rows) n
  end.

Fixpoint forEach_members (rnd : entropy) (depth : Z)
    (members : list (jsstring * json))
    (nodes : list FlatNode) (n : nat) : list FlatNode * nat :=
  match members with
  | [] => (nodes, n)
  | (key, value) :: rest =>
      let '(rows, n) := member_rows rnd depth key value n in
      forEach_members rnd depth rest (nodes ++ rows) n
  end.

(** ** nestJson

    The cells of the store are the objects and arrays [nestJson] can
    reach through its stack.  A slot of a cell holds either a value
    that [nestJson] only copies (a row's [value]) or a reference to
    another cell. *)

Inductive hval :=
| HLit (j : json)
| HRef (l : nat).

Inductive hobj :=
| HObject (props : list (jsstring * hval))
| HArray (elems : list hval).

Abbreviation heap := (list hobj).

(** [props[k] = v] on the own properties of an object. *)
Fixpoint assign (props : list (jsstring * hval)) (k : jsstring) (v : hval)
  : list (jsstring * hval) :=
  match props with
  | [] => [(k, v)]
  | (k', v') :: rest =>
      if decide (k' = k) then (k, v) :: rest
      else (k', v') :: assign rest k v
  end.

(** [if (Array.isArray(parent)) parent.push(v) else parent[k] = v]. *)
Definition attach (h : heap) (parent : nat) (k : jsstring) (v : hval)
  : option heap :=
  match h !! parent with
  | Some (HArray elems) => Some (<[parent := HArray (elems ++ [v])]> h)
  | Some (HObject props) => Some (<[parent := HObject (assign props k v)]> h)
  | None => None
  end.

(** A stack entry [{ obj, depth }]; [obj] is a reference. *)
Record frame := Frame { obj : nat; fdepth : Z }.

(** The stack is kept with its top first: [stack.push(f)] is [f :: stack],
    [stack[stack.length - 1]] is [head stack]. *)
Fixpoint pop_while (stack : list frame) (d : Z) : list frame :=
  match stack with
  | top :: (_ :: _) as below =>
      if d <=? fdepth top then pop_while below d else stack
  | _ => stack
  end.

Record nstate := NState { store : heap; stack : list frame }.

(** [nextNode && nextNode.depth > node.depth]. *)
Definition isParent (node : FlatNode) (nextNode : option FlatNode) : bool :=
  match nextNode with
  | Some next => FlatNode.depth node <? FlatNode.depth next
  | None => false
  end.

(** The body of the [for] loop at row [node], whose successor in the
    sequence is [nextNode]. *)
Definition nest_step (node : FlatNode) (nextNode : option FlatNode)
    (st : nstate) : option nstate :=
  let stack := pop_while (stack st) (FlatNode.depth node) in
  top ← head stack;
  let parent := obj top in
  if isParent node nextNode then
    let newObj := length (store st) in
    let h := store st ++ [HObject []] in
    h ← attach h parent (FlatNode.key node) (HRef newObj);
    Some (NState h (Frame newObj (FlatNode.depth node) :: stack))
  else
    h ← attach (store st) parent (FlatNode.key node)
          (HLit (FlatNode.value node));
    Some (NState h stack).

(** The [for] loop: [nodes[i]] is the head of what is left of the
    sequence and [nodes[i + 1]] the head of its tail. *)
Fixpoint nest_loop (nodes : list FlatNode) (st : nstate) : option nstate :=
  match nodes with
  | [] => Some st
  | node :: rest => st ← nest_step node (head rest) st; nest_loop rest st
  end.

(** Reading a value of the store back as a JSON value.  References
    are followed at most [fuel] deep. *)
Fixpoint reify (fuel : nat) (h : heap) (v : hval) : option json :=
  match v with
  | HLit j => Some j
  | HRef l =>
      match fuel with
      | O => None
      | S fuel =>
          match h !! l with
          | Some (HObject props) =>
              JObject <$> mapM (fun p => pair p.1 <$> reify fuel h p.2) props
          | Some (HArray elems) => JArray <$> mapM (reify fuel h) elems
          | None => None
          end
      end
  end.

(** [root] is the first cell; the stack starts as [[{ obj: root, depth: -1 }]]. *)
Definition root : nat := 0%nat.
Definition nest_init : nstate := NState [HObject []] [Frame root (-1)].

Definition nestJson (nodes : list FlatNode) : option json :=
  if bool_decide (length nodes = 0%nat) then Some (JObject [])
  else
    st ← nest_loop nodes nest_init;
    reify (length (store st)) (store st) (HRef root).

(** ** checkMatch *)

Definition checkMatch (value : json) (source : jsstring) : bool :=
  if negb (truthy value) || negb (typeof_string value) then true
  else
    match value with
    | JStr s =>
        let normalizedValue := trim s in
        if bool_decide (length normalizedValue = 0%nat) then true
        else includes source normalizedValue
    | _ => true
    end.

(** ** getHashTags *)

Definition getHashTags (depth : Z) : option jsstring :=
  repeat_hash (depth + 1).

(** ** handleRowChange *)

(** [value.match(/^(#+)/)]: the longest run of ['#'] the string starts
    with, when it is not empty. *)
Fixpoint leading_hashes (s : jsstring) : jsstring :=
  match s with
  | c :: s' => if (c =? hash)%N then c :: leading_hashes s' else []
  | [] => []
  end.

Definition match_hashes (value : jsstring) : option jsstring :=
  match leading_hashes value with
  | [] => None
  | m => Some m
  end.

(** [match ? match[1].length - 1 : 0]. *)
Definition structure_depth (value : jsstring) : Z :=
  match match_hashes value with
  | Some m => Z.of_nat (length m) - 1
  | None => 0
  end.

Inductive edit := structure | key | value.

Definition edit_row (doc : DocumentData) (id value : jsstring) (type : edit)
    (node : FlatNode) : FlatNode :=
  if bool_decide (FlatNode.id node ≠ id) then node
  else
    match type with
    | structure =>
        let depth := structure_depth value in
        FlatNode.mk (FlatNode.id node) (FlatNode.key node)
          (FlatNode.value node) depth
          (FlatNode.originalLine node) (FlatNode.isMatch node)
    | key =>
        FlatNode.mk (FlatNode.id node) value
          (FlatNode.value node) (FlatNode.depth node)
          (FlatNode.originalLine node) (FlatNode.isMatch node)
    | value =>
        let isMatch := checkMatch (JStr value) (DocumentData.sourceText doc) in
        FlatNode.mk (FlatNode.id node) (FlatNode.key node)
          (JStr value) (FlatNode.depth node)
          (FlatNode.originalLine node) (Some isMatch)
    end.

(** The new sequence handed to [onUpdate]. *)
Definition handleRowChange (doc : DocumentData) (id value : jsstring)
    (type : edit) : list FlatNode :=
  edit_row doc id value type <$> DocumentData.flatNodes doc.

(** ** Vocabulary of the properties *)

(** What a row holds apart from its identifier. *)
Definition contents (node : FlatNode) : jsstring * json * Z :=
  (FlatNode.key node, FlatNode.value node, FlatNode.depth node).

(** A row without its identifier. *)
Definition erase_id (node : FlatNode) : FlatNode :=
  FlatNode.mk [] (FlatNode.key node) (FlatNode.value node)
    (FlatNode.depth node) (FlatNode.originalLine node) (FlatNode.isMatch node).

Definition same_rows (a b : list FlatNode) : Prop :=
  erase_id <$> a = erase_id <$> b.

(** Two runs agree on [j] when they give the same rows, identifiers
    apart. *)
Definition agree (rnd1 rnd2 : entropy) (j : json) : Prop :=
  forall depth n1 n2,
    same_rows (flattenJson rnd1 j depth n1).1 (flattenJson rnd2 j depth n2).1.

(** The identifiers of [rows] are the draws [n], [n + 1], ... of
    [rnd], in that order and one per row, and [m] draws were made
    when the last row is out. *)
Definition drawn (rnd : entropy) (rows : list FlatNode) (n m : nat) : Prop :=
  m = (n + length rows)%nat
  /\ FlatNode.id <$> rows = rnd <$> seq n (length rows).

(** A container row under [key] followed by the rows of the child, and
    a leaf row carrying [value]; [n] identifiers were drawn before. *)
Definition container_rows (rnd : entropy) (depth : Z) (key : jsstring)
    (child : json) (n : nat) : list FlatNode * nat :=
  let sub := flattenJson rnd child (depth + 1) (S n) in
  (row (rnd n) key empty_marker depth :: sub.1, sub.2).

Definition leaf_rows (rnd : entropy) (depth : Z) (key : jsstring)
    (value : json) (n : nat) : list FlatNode * nat :=
  ([row (rnd n) key value depth], S n).

(** The classification [flattenJson] applies to object members. *)
Definition is_container (v : json) : bool :=
  match v with
  | JArray _ | JObject _ => true
  | _ => false
  end.

(** The rows of one object member. *)
Definition rows_of (rnd : entropy) (depth : Z) (key : jsstring)
    (value : json) (n : nat) : list FlatNode * nat :=
  if is_container value then container_rows rnd depth key value n
  else leaf_rows rnd depth key value n.

(** The classification as the specification words it: an object or a
    non-empty array. *)
Definition spec_is_container (v : json) : bool :=
  match v with
  | JObject _ => true
  | JArray (_ :: _) => true
  | _ => false
  end.

Definition spec_rows (rnd : entropy) (depth : Z) (key : jsstring)
    (value : json) (n : nat) : list FlatNode * nat :=
  if spec_is_container value then container_rows rnd depth key value n
  else leaf_rows rnd depth key value n.

(** Whether an array occurs anywhere in a JSON value. *)
Fixpoint has_array (j : json) : bool :=
  match j with
  | JArray _ => true
  | JObject members =>
      (fix any (members : list (jsstring * json)) : bool :=
         match members with
         | [] => false
         | m :: rest => has_array m.2 || any rest
         end) members
  | _ => false
  end.

(** The loop of [nestJson] on a stretch of the sequence that is
    followed by [after]. *)
Definition next_of (rest : list FlatNode) (after : option FlatNode)
  : option FlatNode :=
  match rest with
  | next :: _ => Some next
  | [] => after
  end.

Fixpoint nest_run (nodes : list FlatNode) (after : option FlatNode)
    (st : nstate) : option nstate :=
  match nodes with
  | [] => Some st
  | node :: rest =>
      st ← nest_step node (next_of rest after) st; nest_run rest after st
  end.

(** The object a row is attached to: the one on top of the stack once
    the entries that are not above the row are popped. *)
Definition target (st : nstate) (node : FlatNode) : option nat :=
  obj <$> head (pop_while (stack st) (FlatNode.depth node)).

(** The state after a row attached under [parent] as a container, and
    as a leaf. *)
Definition container_state (st : nstate) (parent : nat)
    (props : list (jsstring * hval)) (node : FlatNode) : nstate :=
  NState
    (<[parent := HObject (assign props (FlatNode.key node)
                            (HRef (length (store st))))]>
       (store st ++ [HObject []]))
    (Frame (length (store st)) (FlatNode.depth node)
       :: pop_while (stack st) (FlatNode.depth node)).

Definition leaf_state (st : nstate) (parent : nat)
    (props : list (jsstring * hval)) (node : FlatNode) : nstate :=
  NState
    (<[parent := HObject (assign props (FlatNode.key node)
                            (HLit (FlatNode.value node)))]>
       (store st))
    (pop_while (stack st) (FlatNode.depth node)).

Definition is_object_at (h : heap) (l : nat) : Prop :=
  exists props, h !! l = Some (HObject props).

Definition refs_forward (h : heap) : Prop :=
  forall l props k l',
    h !! l = Some (HObject props) -> (k, HRef l') ∈ props ->
    (l < l' < length h)%nat.

Definition lits_of (h : heap) (P : json -> Prop) : Prop :=
  forall l props k j,
    h !! l = Some (HObject props) -> (k, HLit j) ∈ props -> P j.

Record nest_inv (st : nstate) : Prop := NestInv {
  inv_sentinel : last (stack st) = Some (Frame root (-1));
  inv_bound : Forall (fun f => (obj f < length (store st))%nat) (stack st);
  inv_objects : Forall (fun o => exists props, o = HObject props) (store st);
  inv_forward : refs_forward (store st)
}.

(** How many ['#'] a string starts with. *)
Fixpoint count_hashes (s : jsstring) : nat :=
  match s with
  | c :: s' => if (c =? hash)%N then S (count_hashes s') else 0%nat
  | [] => 0%nat
  end.

(** ** Sample inputs *)

(** Two runs of the random source. *)
Definition rnd0 : entropy := fun n => js "id" ++ uint_units (Nat.to_uint n).
Definition rnd1 : entropy := fun n => js "k" ++ uint_units (Nat.to_uint (7 * n)).

(** [{"a": {"b": "x"}, "c": 1}] *)
Definition sample_json : json :=
  JObject [(js "a", JObject [(js "b", JStr (js "x"))]); (js "c", JNum 1)].

Definition sample_doc : DocumentData :=
  DocumentData.mk (js "d1") (js "sample") (js "the value y appears here")
    [FlatNode.mk (js "r1") (js "a") empty_marker 0 None (Some true);
     FlatNode.mk (js "r2") (js "b") (JStr (js "x")) 1 None (Some false);
     FlatNode.mk (js "r3") (js "c") (JNum 1) 0 None (Some true)]
    JNull.

(** A row with a value of its own that is followed by a deeper row. *)
Definition rowA : FlatNode := row (js "r1") (js "a") (JStr (js "kept text")) 0.
Definition rowB : FlatNode := row (js "r2") (js "b") (JStr (js "x")) 1.
Definition rowC : FlatNode := row (js "r3") (js "c") (JNum 1) 0.

(** The rows of an object whose members are all scalars, identifiers
    apart. *)
Definition flat_rows (members : list (jsstring * json)) : list FlatNode :=
  (fun m => row [] m.1 m.2 0) <$> members.

Definition lit_props (members : list (jsstring * json))
  : list (jsstring * hval) :=
  (fun m => (m.1, HLit m.2)) <$> members.

(** ** App: the documents

    [handleDocUpdate], [handleSourceUpdate] and the body of the loop of
    [handleUpload] of [src/App.tsx], as functions of the list of
    documents they are given. *)

Definition handleDocUpdate (documents : list DocumentData) (id : jsstring)
    (updatedNodes : list FlatNode) : list DocumentData :=
  (fun doc =>
     if bool_decide (DocumentData.id doc = id) then
       DocumentData.mk (DocumentData.id doc) (DocumentData.name doc)
         (DocumentData.sourceText doc) updatedNodes (DocumentData.rawJson doc)
     else doc) <$> documents.

(** [{ ...node, isMatch: checkMatch(node.value, text) }]. *)
Definition rematch (text : jsstring) (node : FlatNode) : FlatNode :=
  FlatNode.mk (FlatNode.id node) (FlatNode.key node) (FlatNode.value node)
    (FlatNode.depth node) (FlatNode.originalLine node)
    (Some (checkMatch (FlatNode.value node) text)).

Definition handleSourceUpdate (documents : list DocumentData)
    (docId newText : jsstring) : list DocumentData :=
  (fun doc =>
     if bool_decide (DocumentData.id doc ≠ docId) then doc
     else
       let updatedNodes := rematch newText <$> DocumentData.flatNodes doc in
       DocumentData.mk (DocumentData.id doc) (DocumentData.name doc)
         newText updatedNodes (DocumentData.rawJson doc)) <$> documents.

(** What [handleUpload] pushes onto [newDocs] for a file whose text
    parsed as [jsonContent] and whose paired text is [textContent]:
    the rows of [flattenJson(jsonContent)], each with its [isMatch]
    set, under an identifier drawn from [Math.random]; [docid n] is
    that identifier when [n] draws came before it. *)
Definition loadDocument (rnd docid : entropy) (name : jsstring)
    (jsonContent : json) (textContent : jsstring) (n : nat)
  : DocumentData * nat :=
  let '(flatNodes, n) := flattenJson rnd jsonContent 0 n in
  let flatNodes := rematch textContent <$> flatNodes in
  (DocumentData.mk (docid n) name textContent flatNodes jsonContent, S n).

(** The editor hands [handleRowChange]'s rows to [handleDocUpdate]
    under the identifier of the document it shows. *)
Definition editDocument (documents : list DocumentData) (doc : DocumentData)
    (id v : jsstring) (ty : edit) : list DocumentData :=
  handleDocUpdate documents (DocumentData.id doc) (handleRowChange doc id v ty).

(** ** App: the comparison list *)

Definition addToComparison (compareDocIds : list jsstring)
    (docId : jsstring) : list jsstring :=
  if negb (bool_decide (docId ∈ compareDocIds)) then compareDocIds ++ [docId]
  else compareDocIds.

Definition removeFromComparison (compareDocIds : list jsstring)
    (docId : jsstring) : list jsstring :=
  filter (fun id => id ≠ docId) compareDocIds.

(** ** TopicTree *)

(** [v === '']. *)
Definition is_empty_string (v : json) : bool :=
  match v with
  | JStr [] => true
  | _ => false
  end.

(** [node.value === '' || (nodes[index + 1] && nodes[index + 1].depth >
    node.depth)]. *)
Definition isContainer (nodes : list FlatNode) (index : nat)
    (node : FlatNode) : bool :=
  is_empty_string (FlatNode.value node)
  || match nodes !! (index + 1)%nat with
     | Some next => FlatNode.depth node <? FlatNode.depth next
     | None => false
     end.

Definition toggleCollapse (collapsedIds : gset jsstring) (id : jsstring)
  : gset jsstring :=
  if bool_decide (id ∈ collapsedIds) then collapsedIds ∖ {[id]}
  else collapsedIds ∪ {[id]}.

(** The loop of [visibleNodes]; the rows pushed onto [result] are
    returned in the order they are pushed. *)
Fixpoint visible_loop (collapsedIds : gset jsstring) (nodes : list FlatNode)
    (hiddenUntilDepth : Z) : list FlatNode :=
  match nodes with
  | [] => []
  | node :: rest =>
      if bool_decide (hiddenUntilDepth ≠ -1)
         && (hiddenUntilDepth <? FlatNode.depth node)
      then visible_loop collapsedIds rest hiddenUntilDepth
      else
        node :: visible_loop collapsedIds rest
                  (if bool_decide (FlatNode.id node ∈ collapsedIds)
                   then FlatNode.depth node else -1)
  end.

Definition visibleNodes (nodes : list FlatNode) (collapsedIds : gset jsstring)
  : list FlatNode :=
  visible_loop collapsedIds nodes (-1).

(** ** Source snippets *)

(** The position of the first occurrence of [pat] in [source]. *)
Fixpoint first_occurrence (source pat : jsstring) : option nat :=
  if starts_with pat source then Some 0%nat
  else
    match source with
    | [] => None
    | _ :: source' => S <$> first_occurrence source' pat
    end.

(** [source.indexOf(pat)]. *)
Definition indexOf (source pat : jsstring) : Z :=
  match first_occurrence source pat with
  | Some i => Z.of_nat i
  | None => -1
  end.

(** [s.substring(a, b)]: both ends are clamped to the string and
    swapped when they are out of order. *)
Definition clamp (s : jsstring) (a : Z) : nat :=
  Z.to_nat (Z.min (Z.max a 0) (Z.of_nat (length s))).

Definition substring (s : jsstring) (a b : Z) : jsstring :=
  let lo := Nat.min (clamp s a) (clamp s b) in
  let hi := Nat.max (clamp s a) (clamp s b) in
  take (hi - lo) (drop lo s).

Inductive snippet :=
| NoSource
| HoverPrompt
| NoStringValue
| EmptyValue
| NotFound
| Snippet (pre found post : jsstring).

(** What both [renderSourceSnippet] do once the row is at hand;
    [context] is the number of code units shown on each side. *)
Definition source_snippet (context : Z) (sourceText : jsstring)
    (activeNode : FlatNode) : snippet :=
  if negb (truthy (FlatNode.value activeNode))
     || negb (typeof_string (FlatNode.value activeNode))
  then NoStringValue
  else
    match FlatNode.value activeNode with
    | JStr s =>
        let val := trim s in
        if bool_decide (length val = 0%nat) then EmptyValue
        else
          let index := indexOf sourceText val in
          if index =? -1 then NotFound
          else
            let start := Z.max 0 (index - context) in
            let end_ := Z.min (Z.of_nat (length sourceText))
                          (index + Z.of_nat (length val) + context) in
            Snippet (substring sourceText start index)
                    (substring sourceText index (index + Z.of_nat (length val)))
                    (substring sourceText (index + Z.of_nat (length val)) end_)
    | _ => NoStringValue
    end.

(** [renderSourceSnippet] of the ontology editor. *)
Definition renderSourceSnippet (doc : DocumentData)
    (nodeId : option jsstring) : snippet :=
  if bool_decide (DocumentData.sourceText doc = []) then NoSource
  else
    match nodeId with
    | None => HoverPrompt
    | Some nodeId =>
        if bool_decide (nodeId = []) then HoverPrompt
        else
          match List.find (fun n => bool_decide (FlatNode.id n = nodeId))
                  (DocumentData.flatNodes doc) with
          | None => NoStringValue
          | Some activeNode =>
              source_snippet 100 (DocumentData.sourceText doc) activeNode
          end
    end.

(** [renderSourceSnippet] of the focus panel, which is rendered for a
    row [activeNode] of [doc]. *)
Definition focusSourceSnippet (doc : DocumentData) (activeNode : FlatNode)
  : snippet :=
  if bool_decide (DocumentData.sourceText doc = []) then NoSource
  else source_snippet 80 (DocumentData.sourceText doc) activeNode.

(** ** Vocabulary of the further properties *)

(** The [isMatch] of every row of [doc] is what [checkMatch] says of
    its value against the source text of [doc]. *)
Definition in_sync (doc : DocumentData) : Prop :=
  Forall (fun node =>
            FlatNode.isMatch node
            = Some (checkMatch (FlatNode.value node)
                      (DocumentData.sourceText doc)))
    (DocumentData.flatNodes doc).

(** How a row [b] may follow a row [a] in what [flattenJson] emits:
    at most one level deeper, and deeper only when [a] carries the
    empty marker. *)
Definition follows (a b : FlatNode) : Prop :=
  FlatNode.depth b <= FlatNode.depth a + 1
  /\ (FlatNode.depth a < FlatNode.depth b ->
      FlatNode.value a = empty_marker).

Fixpoint stepped (rows : list FlatNode) : Prop :=
  match rows with
  | a :: rest =>
      match rest with
      | b :: _ => follows a b /\ stepped rest
      | [] => True
      end
  | [] => True
  end.

(** Rows that start at depth [d] and never go above it. *)
Definition rooted (d : Z) (rows : list FlatNode) : Prop :=
  Forall (fun node => d <= FlatNode.depth node) rows
  /\ (forall node, head rows = Some node -> FlatNode.depth node = d).

(** ** Well-nested rows

    [forest d nodes members]: the rows [nodes] spell the members
    [members] of an object at depth [d].  A row at depth [d] not
    followed by a deeper row is a member with the row's value; a row
    at depth [d] followed by rows that spell members at one greater
    depth [d'] is a member that is the object of these members,
    whatever the row's own value.  No key occurs twice among the
    members of one object. *)
Inductive forest : Z -> list FlatNode -> list (jsstring * json) -> Prop :=
| forest_nil d : forest d [] []
| forest_leaf d node rest members :
    FlatNode.depth node = d ->
    FlatNode.key node ∉ members.*1 ->
    forest d rest members ->
    forest d (node :: rest)
      ((FlatNode.key node, FlatNode.value node) :: members)
| forest_node d d' node sub rest children members :
    FlatNode.depth node = d ->
    d < d' ->
    sub <> [] ->
    FlatNode.key node ∉ members.*1 ->
    forest d' sub children ->
    forest d rest members ->
    forest d (node :: sub ++ rest)
      ((FlatNode.key node, JObject children) :: members).

(** [reify] gives [j] for [v] with some fuel. *)
Definition reifies (h : heap) (v : hval) (j : json) : Prop :=
  exists fuel, reify fuel h v = Some j.

(** What a value becomes on the way through [flattenJson] and
    [nestJson]: an array becomes an object keyed by the bracketed
    indices, an empty array or object becomes the empty string, and
    so does a [null] element of an array. *)
Fixpoint degrade (v : json) : json :=
  match v with
  | JObject members =>
      match members with
      | [] => empty_marker
      | _ =>
          JObject
            ((fix each (members : list (jsstring * json)) :=
                match members with
                | [] => []
                | (k, child) :: rest => (k, degrade child) :: each rest
                end) members)
      end
  | JArray items =>
      match items with
      | [] => empty_marker
      | _ =>
          JObject
            ((fix each (items : list json) (index : nat) :=
                match items with
                | [] => []
                | item :: rest =>
                    (index_key index,
                     if is_null item then empty_marker else degrade item)
                    :: each rest (S index)
                end) items 0%nat)
      end
  | _ => v
  end.

Definition degrade_elem (item : json) : json :=
  if is_null item then empty_marker else degrade item.

Definition degrade_members (members : list (jsstring * json))
  : list (jsstring * json) :=
  (fun m => (m.1, degrade m.2)) <$> members.

Fixpoint degrade_items (items : list json) (index : nat)
  : list (jsstring * json) :=
  match items with
  | [] => []
  | item :: rest =>
      (index_key index, degrade_elem item) :: degrade_items rest (S index)
  end.

(** The members of the object that comes back for [v]. *)
Definition entries (v : json) : list (jsstring * json) :=
  match v with
  | JObject members => degrade_members members
  | JArray items => degrade_items items 0
  | _ => []
  end.

Definition renest (v : json) : json := JObject (entries v).

(** No object in [v] has two members under one key. *)
Fixpoint distinct_keys (v : json) : bool :=
  match v with
  | JObject members =>
      bool_decide (NoDup members.*1)
      && (fix all (members : list (jsstring * json)) : bool :=
            match members with
            | [] => true
            | (_, child) :: rest => distinct_keys child && all rest
            end) members
  | JArray items =>
      (fix all (items : list json) : bool :=
         match items with
         | [] => true
         | item :: rest => distinct_keys item && all rest
         end) items
  | _ => true
  end.

(** A scalar, [null], or an object that is not empty and whose
    members are such values. *)
Fixpoint plain (v : json) : bool :=
  match v with
  | JArray _ => false
  | JObject members =>
      match members with
      | [] => false
      | _ =>
          (fix all (members : list (jsstring * json)) : bool :=
             match members with
             | [] => true
             | (_, child) :: rest => plain child && all rest
             end) members
      end
  | _ => true
  end.

(** [members[k] = v] on the members of an object: the slot of [k] is
    overwritten where it stands, or a new last slot is made. *)
Fixpoint put (members : list (jsstring * json)) (k : jsstring) (v : json)
  : list (jsstring * json) :=
  match members with
  | [] => [(k, v)]
  | (k', v') :: rest =>
      if decide (k' = k) then (k, v) :: rest
      else (k', v') :: put rest k v
  end.

(** The members written by the rows [nodes], each under its key, one
    after the other. *)
Definition written (nodes : list FlatNode) : list (jsstring * json) :=
  foldl (fun members node => put members (FlatNode.key node)
                               (FlatNode.value node)) [] nodes.

(** ** Worked inputs *)

Example flatten_scenario :
  (flattenJson rnd0
     (JObject [(js "a", JObject [(js "b", JStr (js "x"))]); (js "c", JNum 1)])
     0 0%nat).1
  = [row (rnd0 0%nat) (js "a") empty_marker 0;
     row (rnd0 1%nat) (js "b") (JStr (js "x")) 1;
     row (rnd0 2%nat) (js "c") (JNum 1) 0].
Proof. reflexivity. Qed.

Example nest_scenario :
  nestJson
    [row (rnd0 0%nat) (js "a") empty_marker 0;
     row (rnd0 1%nat) (js "b") (JStr (js "x")) 1;
     row (rnd0 2%nat) (js "c") (JNum 1) 0]
  = Some (JObject [(js "a", JObject [(js "b", JStr (js "x"))]); (js "c", JNum 1)]).
Proof. vm_compute. reflexivity. Qed.

Example match_exact :
  checkMatch (JStr (js "hello world")) (js "say hello world now") = true
  /\ checkMatch (JStr (js "hello  world")) (js "say hello world now") = false
  /\ checkMatch (JStr (js "Hello")) (js "hello") = false
  /\ checkMatch (JStr (js "  hello ")) (js "hello") = true.
Proof. vm_compute. auto. Qed.

(** * Properties *)

(** ** Strings *)

Lemma starts_with_spec pat s :
  starts_with pat s = true <-> exists r, s = pat ++ r.
Proof.
  revert s. induction pat as [|p pat IH]; intros s; simpl.
  - split; [eauto | done].
  - destruct s as [|c s]; simpl.
    + split; [done | intros [r Hr]; discriminate Hr].
    + rewrite andb_true_iff, N.eqb_eq, IH. split.
      * intros [-> [r ->]]. eauto.
      * intros [r Hr]. injection Hr as -> ->. eauto.
Qed.

Lemma includes_spec source pat :
  includes source pat = true <-> exists l r, source = l ++ pat ++ r.
Proof.
  induction source as [|c source IH]; simpl.
  - rewrite orb_false_r, starts_with_spec. split.
    + intros [r Hr]. exists [], r. done.
    + intros [l [r Hr]]. destruct l; simpl in Hr; [eauto | discriminate Hr].
  - rewrite orb_true_iff, starts_with_spec, IH. split.
    + intros [[r Hr] | [l [r Hr]]].
      * exists [], r. done.
      * exists (c :: l), r. by rewrite Hr.
    + intros [[|c' l] [r Hr]].
      * left. eauto.
      * right. injection Hr as _ ->. eauto.
Qed.

Lemma trim_start_spec s :
  exists ws, s = ws ++ trim_start s
    /\ forallb is_white_space ws = true
    /\ (forall c r, trim_start s = c :: r -> is_white_space c = false).
Proof.
  induction s as [|c s (ws & Hs & Hws & Hhd)]; simpl.
  - exists []. done.
  - destruct (is_white_space c) eqn:Hc.
    + exists (c :: ws). simpl. rewrite Hc, Hws. split; [congruence | done].
    + exists []. split; [done | split; [done |]].
      intros c' r [= <- _]. done.
Qed.

(** [trim] removes a run of white space at each end and nothing else. *)
Lemma trim_spec s :
  exists ws1 ws2, s = ws1 ++ trim s ++ ws2
    /\ forallb is_white_space ws1 = true
    /\ forallb is_white_space ws2 = true.
Proof.
  destruct (trim_start_spec s) as (ws1 & Hs & Hws1 & _).
  destruct (trim_start_spec (reverse (trim_start s))) as (ws2 & Hr & Hws2 & _).
  exists ws1, (reverse ws2). unfold trim, trim_end. split; [|split; [done|]].
  - rewrite <- reverse_app, <- Hr, reverse_involutive. done.
  - rewrite forallb_forall in *. intros c Hc. apply Hws2.
    apply list_elem_of_In. apply list_elem_of_In in Hc.
    rewrite elem_of_reverse in Hc. done.
Qed.

Lemma leading_hashes_replicate n s :
  (forall c r, s = c :: r -> c <> hash) ->
  leading_hashes (replicate n hash ++ s) = replicate n hash.
Proof.
  intros Hs. induction n as [|n IH]; simpl.
  - destruct s as [|c r]; simpl; [done |].
    destruct (N.eqb_spec c hash) as [->|]; [| done].
    by destruct (Hs hash r).
  - by rewrite IH.
Qed.

Lemma leading_hashes_spec s :
  exists n r, s = replicate n hash ++ r
    /\ leading_hashes s = replicate n hash
    /\ (forall c r', r = c :: r' -> c <> hash).
Proof.
  induction s as [|c s (n & r & Hs & Hl & Hr)]; simpl.
  - exists 0%nat, []. done.
  - destruct (N.eqb_spec c hash) as [->|Hc].
    + exists (S n), r. simpl. rewrite Hl. split; [congruence | done].
    + exists 0%nat, (c :: s). split; [done | split; [done |]].
      intros c' r' [= <- _]. done.
Qed.


(** ** checkMatch *)

Lemma trim_nil : trim [] = [].
Proof. reflexivity. Qed.

Lemma includes_nil source : includes source [] = true.
Proof. apply includes_spec. exists [], source. done. Qed.

(** C4. [checkMatch value source] is true exactly when [value] is not
    a string, or its trimmed form is empty, or its trimmed form occurs
    in [source] as a contiguous run of code units; so it is true of
    [null], numbers, booleans and the empty string whatever the
    source is. *)
Theorem checkMatch_spec (value : json) (source : jsstring) :
  (checkMatch value source = true <->
     typeof_string value = false
     \/ exists s, value = JStr s
          /\ (length (trim s) = 0%nat
              \/ exists l r, source = l ++ trim s ++ r))
  /\ checkMatch JNull source = true
  /\ (forall x, checkMatch (JNum x) source = true)
  /\ (forall b, checkMatch (JBool b) source = true)
  /\ checkMatch (JStr []) source = true.
Proof.
  split; [| by repeat split; intros; unfold checkMatch; simpl;
              rewrite ?orb_true_r].
  destruct value as [| b | x | s | items | members];
    try (unfold checkMatch; simpl; rewrite ?orb_true_r; split; [auto | done]).
  unfold checkMatch. simpl. rewrite orb_false_r, negb_involutive.
  destruct (bool_decide_reflect (s = [])) as [-> | Hs].
  - split; [| done]. intros _. right. exists []. split; [done |]. by left.
  - destruct (bool_decide_reflect (length (trim s) = 0%nat)) as [Hlen | Hlen].
    + split; [| done]. intros _. right. exists s. auto.
    + rewrite includes_spec. split.
      * intros Hin. right. exists s. auto.
      * intros [Hty | (s' & [= <-] & [Hlen' | Hin])]; done.
Qed.

(** ** Depth tokens *)

Lemma length_leading_hashes s : length (leading_hashes s) = count_hashes s.
Proof.
  induction s as [|c s IH]; simpl; [done |].
  destruct (c =? hash)%N; simpl; congruence.
Qed.

Lemma structure_depth_count s :
  structure_depth s =
    if decide (count_hashes s = 0%nat) then 0
    else Z.of_nat (count_hashes s) - 1.
Proof.
  unfold structure_depth, match_hashes. rewrite <- length_leading_hashes.
  destruct (leading_hashes s) as [|c m]; [reflexivity |].
  cbn [length]. destruct (decide _); [done | lia].
Qed.

Lemma count_hashes_replicate n : count_hashes (replicate n hash) = n.
Proof. induction n as [|n IH]; simpl; congruence. Qed.

(** C8. The depth of a structure token is the number of ['#'] it
    starts with, less one, and 0 when it starts with none, so never
    negative; ["###"] gives 2 and the empty token 0; and the token
    [getHashTags d] of a depth [d >= 0], which is [d + 1] times ['#'],
    parses back to [d]. *)
Theorem structure_depth_spec :
  (forall s, structure_depth s =
     if decide (count_hashes s = 0%nat) then 0
     else Z.of_nat (count_hashes s) - 1)
  /\ (forall s, 0 <= structure_depth s)
  /\ structure_depth (js "###") = 2
  /\ structure_depth (js "") = 0
  /\ (forall d, 0 <= d ->
        exists token, getHashTags d = Some token
          /\ token = replicate (Z.to_nat (d + 1)) hash
          /\ structure_depth token = d).
Proof.
  split; [apply structure_depth_count |].
  split; [intros s; rewrite structure_depth_count; case_decide; lia |].
  split; [reflexivity |]. split; [reflexivity |].
  intros d Hd. exists (replicate (Z.to_nat (d + 1)) hash).
  split; [| split; [done |]].
  - unfold getHashTags, repeat_hash.
    destruct (Z.ltb_spec (d + 1) 0); [lia | done].
  - rewrite structure_depth_count, count_hashes_replicate.
    case_decide; lia.
Qed.

Lemma structure_depth_spec_witness :
  0 <= 2 /\
  exists token, getHashTags 2 = Some token
    /\ token = replicate (Z.to_nat (2 + 1)) hash
    /\ structure_depth token = 2.
Proof.
  split; [lia |].
  apply (proj2 (proj2 (proj2 (proj2 structure_depth_spec))) 2). lia.
Defined.

(** ** Row edits *)

Lemma edit_row_id doc id v ty node :
  FlatNode.id (edit_row doc id v ty node) = FlatNode.id node.
Proof. unfold edit_row. case_bool_decide; [done |]. by destruct ty. Qed.

Lemma edit_row_other doc id v ty node :
  FlatNode.id node <> id -> edit_row doc id v ty node = node.
Proof. intros Hne. unfold edit_row. by rewrite bool_decide_true. Qed.

Lemma edit_row_isMatch doc id v ty node :
  ty <> value ->
  FlatNode.isMatch (edit_row doc id v ty node) = FlatNode.isMatch node.
Proof. intros Hty. unfold edit_row. case_bool_decide; [done |]. by destruct ty. Qed.

(** C9. An edit of the row with identifier [id] returns a sequence of
    the same length in which every row keeps its identifier and every
    row with another identifier is unchanged; an edit of the structure
    or of the key leaves the [isMatch] field of every row as it was. *)
Theorem handleRowChange_frame (doc : DocumentData) (id v : jsstring)
    (ty : edit) :
  length (handleRowChange doc id v ty) = length (DocumentData.flatNodes doc)
  /\ (forall i node,
        DocumentData.flatNodes doc !! i = Some node ->
        exists node',
          handleRowChange doc id v ty !! i = Some node'
          /\ FlatNode.id node' = FlatNode.id node
          /\ (FlatNode.id node <> id -> node' = node))
  /\ (ty <> value ->
      FlatNode.isMatch <$> handleRowChange doc id v ty
      = FlatNode.isMatch <$> DocumentData.flatNodes doc).
Proof.
  unfold handleRowChange. split; [apply length_fmap |]. split.
  - intros i node Hi. exists (edit_row doc id v ty node).
    rewrite list_lookup_fmap, Hi. simpl.
    split; [done |]. split; [apply edit_row_id | apply edit_row_other].
  - intros Hty. rewrite <- list_fmap_compose. apply list_fmap_ext.
    intros i node _. simpl. by apply edit_row_isMatch.
Qed.

Lemma handleRowChange_frame_witness :
  handleRowChange sample_doc (js "r2") (js "##") structure
  = [FlatNode.mk (js "r1") (js "a") empty_marker 0 None (Some true);
     FlatNode.mk (js "r2") (js "b") (JStr (js "x")) 1 None (Some false);
     FlatNode.mk (js "r3") (js "c") (JNum 1) 0 None (Some true)]
  /\ structure <> value
  /\ FlatNode.isMatch <$> handleRowChange sample_doc (js "r2") (js "##") structure
     = FlatNode.isMatch <$> DocumentData.flatNodes sample_doc.
Proof.
  split; [reflexivity |]. split; [discriminate |].
  apply (proj2 (proj2 (handleRowChange_frame sample_doc (js "r2") (js "##")
                         structure))).
  discriminate.
Defined.

(** ** flattenJson *)

Lemma json_induction (P : json -> Prop) :
  P JNull -> (forall b, P (JBool b)) -> (forall x, P (JNum x)) ->
  (forall s, P (JStr s)) ->
  (forall items, Forall P items -> P (JArray items)) ->
  (forall members, Forall (fun m => P m.2) members -> P (JObject members)) ->
  forall j, P j.
Proof.
  intros Hnull Hbool Hnum Hstr Harr Hobj. fix IH 1.
  intros [| b | x | s | items | members].
  - exact Hnull.
  - apply Hbool.
  - apply Hnum.
  - apply Hstr.
  - apply Harr. induction items as [|item items IHitems]; constructor.
    + apply IH.
    + exact IHitems.
  - apply Hobj. induction members as [|[k v] members IHm]; constructor.
    + apply IH.
    + exact IHm.
Qed.

Lemma flattenJson_array rnd items depth n :
  flattenJson rnd (JArray items) depth n
  = forEach_items rnd depth items 0 [] n.
Proof.
  cbn [flattenJson].
  match goal with
  | |- ?f items 0%nat [] n = _ =>
      enough (H : forall items index nodes n,
                 f items index nodes n
                 = forEach_items rnd depth items index nodes n) by apply H
  end.
  clear items n.
  induction items as [|item rest IH]; intros index nodes m; [done |].
  simpl. unfold element_rows, generateId.
  destruct (typeof_object item).
  - destruct (flattenJson rnd item (depth + 1) (S m)) as [sub m'].
    etrans; [apply IH |]. by rewrite <- app_assoc.
  - apply IH.
Qed.

Lemma flattenJson_object rnd members depth n :
  flattenJson rnd (JObject members) depth n
  = forEach_members rnd depth members [] n.
Proof.
  cbn [flattenJson].
  match goal with
  | |- ?f members [] n = _ =>
      enough (H : forall members nodes n,
                 f members nodes n
                 = forEach_members rnd depth members nodes n) by apply H
  end.
  clear members n.
  induction members as [|[k v] rest IH]; intros nodes m; [done |].
  simpl. unfold member_rows, generateId.
  destruct (typeof_object v && negb (is_null v)).
  - destruct (flattenJson rnd v (depth + 1) (S m)) as [sub m'].
    etrans; [apply IH |]. by rewrite <- app_assoc.
  - apply IH.
Qed.

Lemma forEach_items_nodes rnd depth items index nodes n :
  forEach_items rnd depth items index nodes n
  = (nodes ++ (forEach_items rnd depth items index [] n).1,
     (forEach_items rnd depth items index [] n).2).
Proof.
  revert index nodes n.
  induction items as [|item rest IH]; intros index nodes n; simpl.
  - by rewrite app_nil_r.
  - destruct (element_rows rnd depth index item n) as [rows m].
    rewrite (IH _ (nodes ++ rows)), (IH _ ([] ++ rows)). simpl.
    by rewrite app_assoc.
Qed.

Lemma forEach_members_nodes rnd depth members nodes n :
  forEach_members rnd depth members nodes n
  = (nodes ++ (forEach_members rnd depth members [] n).1,
     (forEach_members rnd depth members [] n).2).
Proof.
  revert nodes n.
  induction members as [|[k v] rest IH]; intros nodes n; simpl.
  - by rewrite app_nil_r.
  - destruct (member_rows rnd depth k v n) as [rows m].
    rewrite (IH (nodes ++ rows)), (IH ([] ++ rows)). simpl.
    by rewrite app_assoc.
Qed.

Lemma forEach_items_app rnd depth pre post index n :
  forEach_items rnd depth (pre ++ post) index [] n
  = let s := forEach_items rnd depth pre index [] n in
    let t := forEach_items rnd depth post (index + length pre) [] s.2 in
    (s.1 ++ t.1, t.2).
Proof.
  revert index n. induction pre as [|item pre IH]; intros index n; simpl.
  - rewrite Nat.add_0_r. by destruct (forEach_items rnd depth post index [] n).
  - destruct (element_rows rnd depth index item n) as [rows m].
    rewrite forEach_items_nodes, IH. simpl.
    rewrite (forEach_items_nodes _ _ pre _ rows). simpl.
    replace (index + S (length pre))%nat with (S (index + length pre)) by lia.
    by rewrite app_assoc.
Qed.

Lemma forEach_members_app rnd depth pre post n :
  forEach_members rnd depth (pre ++ post) [] n
  = let s := forEach_members rnd depth pre [] n in
    let t := forEach_members rnd depth post [] s.2 in
    (s.1 ++ t.1, t.2).
Proof.
  revert n. induction pre as [|[k v] pre IH]; intros n; simpl.
  - by destruct (forEach_members rnd depth post [] n).
  - destruct (member_rows rnd depth k v n) as [rows m].
    rewrite forEach_members_nodes, IH. simpl.
    rewrite (forEach_members_nodes _ _ pre rows). simpl.
    by rewrite app_assoc.
Qed.

Lemma member_rows_classified rnd depth key v n :
  member_rows rnd depth key v n = rows_of rnd depth key v n.
Proof.
  unfold member_rows, rows_of, container_rows, leaf_rows, generateId.
  destruct v; cbn [typeof_object is_null is_container andb negb fst snd];
    try done;
    match goal with
    | |- context [flattenJson ?r ?j ?d ?m] => by destruct (flattenJson r j d m)
    end.
Qed.

Lemma element_rows_classified rnd depth index item n :
  item <> JNull ->
  element_rows rnd depth index item n
  = rows_of rnd depth (index_key index) item n.
Proof.
  intros Hnull.
  unfold element_rows, rows_of, container_rows, leaf_rows, generateId.
  destruct item; cbn [typeof_object is_null is_container andb negb fst snd];
    try done;
    match goal with
    | |- context [flattenJson ?r ?j ?d ?m] => by destruct (flattenJson r j d m)
    end.
Qed.




(** ** Identifiers and determinism *)

Section two_runs.
Variables rnd1 rnd2 : entropy.

Lemma element_rows_agree depth index item n1 n2 :
  agree rnd1 rnd2 item ->
  same_rows (element_rows rnd1 depth index item n1).1
            (element_rows rnd2 depth index item n2).1.
Proof.
  intros Hitem. unfold element_rows, generateId.
  destruct (typeof_object item); [| done].
  specialize (Hitem (depth + 1) (S n1) (S n2)).
  destruct (flattenJson rnd1 item (depth + 1) (S n1)) as [sub1 m1].
  destruct (flattenJson rnd2 item (depth + 1) (S n2)) as [sub2 m2].
  unfold same_rows in *. cbn [fst snd] in *.
  by rewrite !fmap_cons, Hitem.
Qed.

Lemma member_rows_agree depth key v n1 n2 :
  agree rnd1 rnd2 v ->
  same_rows (member_rows rnd1 depth key v n1).1
            (member_rows rnd2 depth key v n2).1.
Proof.
  intros Hv. unfold member_rows, generateId.
  destruct (typeof_object v && negb (is_null v)); [| done].
  specialize (Hv (depth + 1) (S n1) (S n2)).
  destruct (flattenJson rnd1 v (depth + 1) (S n1)) as [sub1 m1].
  destruct (flattenJson rnd2 v (depth + 1) (S n2)) as [sub2 m2].
  unfold same_rows in *. cbn [fst snd] in *.
  by rewrite !fmap_cons, Hv.
Qed.

Lemma flattenJson_agree j : agree rnd1 rnd2 j.
Proof.
  induction j as [| b | x | s | items IH | members IH] using json_induction;
    try done; intros depth n1 n2.
  - rewrite !flattenJson_array. generalize 0%nat. revert n1 n2.
    induction IH as [|item items Hitem _ IHitems]; intros n1 n2 index;
      [done |].
    cbn [forEach_items].
    pose proof (element_rows_agree depth index item n1 n2 Hitem) as Hrows.
    destruct (element_rows rnd1 depth index item n1) as [rows1 m1].
    destruct (element_rows rnd2 depth index item n2) as [rows2 m2].
    rewrite (forEach_items_nodes rnd1), (forEach_items_nodes rnd2).
    unfold same_rows in *. cbn [fst snd] in *.
    by rewrite !fmap_app, Hrows, (IHitems m1 m2).
  - rewrite !flattenJson_object. revert n1 n2.
    induction IH as [|[k v] members Hv _ IHmembers]; intros n1 n2;
      [done |].
    cbn [forEach_members].
    pose proof (member_rows_agree depth k v n1 n2 Hv) as Hrows.
    destruct (member_rows rnd1 depth k v n1) as [rows1 m1].
    destruct (member_rows rnd2 depth k v n2) as [rows2 m2].
    rewrite (forEach_members_nodes rnd1), (forEach_members_nodes rnd2).
    unfold same_rows in *. cbn [fst snd] in *.
    by rewrite !fmap_app, Hrows, (IHmembers m1 m2).
Qed.
End two_runs.

Section one_run.
Variable rnd : entropy.

Lemma drawn_app rows1 rows2 n m k :
  drawn rnd rows1 n m -> drawn rnd rows2 m k -> drawn rnd (rows1 ++ rows2) n k.
Proof.
  intros [-> H1] [-> H2]. unfold drawn.
  rewrite length_app, fmap_app, seq_app, fmap_app, H1, H2.
  split; [lia | done].
Qed.

Lemma flattenJson_drawn j depth n :
  drawn rnd (flattenJson rnd j depth n).1 n (flattenJson rnd j depth n).2.
Proof.
  revert depth n.
  induction j as [| b | x | s | items IH | members IH] using json_induction;
    intros depth n; try (split; simpl; [lia | done]).
  - rewrite flattenJson_array. generalize 0%nat. revert n.
    induction IH as [|item items Hitem _ IHitems]; intros n index.
    { split; simpl; [lia | done]. }
    cbn [forEach_items].
    assert (drawn rnd (element_rows rnd depth index item n).1 n
              (element_rows rnd depth index item n).2) as Hrows.
    { unfold element_rows, generateId.
      destruct (typeof_object item); [| split; simpl; [lia | done]].
      specialize (Hitem (depth + 1) (S n)).
      destruct (flattenJson rnd item (depth + 1) (S n)) as [sub m].
      apply (drawn_app [_] sub n (S n) m); [| done].
      split; simpl; [lia | done]. }
    destruct (element_rows rnd depth index item n) as [rows m].
    rewrite forEach_items_nodes. simpl in *.
    eapply drawn_app; [exact Hrows | apply IHitems].
  - rewrite flattenJson_object. revert n.
    induction IH as [|[k v] members Hv _ IHmembers]; intros n.
    { split; simpl; [lia | done]. }
    cbn [forEach_members].
    assert (drawn rnd (member_rows rnd depth k v n).1 n
              (member_rows rnd depth k v n).2) as Hrows.
    { unfold member_rows, generateId.
      destruct (typeof_object v && negb (is_null v));
        [| split; simpl; [lia | done]].
      specialize (Hv (depth + 1) (S n)). cbn [snd] in Hv.
      destruct (flattenJson rnd v (depth + 1) (S n)) as [sub m].
      apply (drawn_app [_] sub n (S n) m); [| done].
      split; simpl; [lia | done]. }
    destruct (member_rows rnd depth k v n) as [rows m].
    rewrite forEach_members_nodes. simpl in *.
    eapply drawn_app; [exact Hrows | apply IHmembers].
Qed.
End one_run.

Lemma nest_step_contents a a' next next' st :
  contents a = contents a' ->
  FlatNode.depth <$> next = FlatNode.depth <$> next' ->
  nest_step a next st = nest_step a' next' st.
Proof.
  unfold contents, nest_step, isParent. intros [= Hk Hv Hd] Hnext.
  rewrite Hk, Hv, Hd.
  destruct next, next'; simpl in Hnext; try discriminate; [| done].
  by injection Hnext as ->.
Qed.

Lemma nest_loop_contents nodes nodes' st :
  contents <$> nodes = contents <$> nodes' ->
  nest_loop nodes st = nest_loop nodes' st.
Proof.
  revert nodes' st. induction nodes as [|a rest IH];
    intros [|a' rest'] st Heq; try discriminate; [done |].
  rewrite !fmap_cons in Heq.
  assert (contents a = contents a') as Ha by congruence.
  assert (contents <$> rest = contents <$> rest') as Hrest by congruence.
  clear Heq. simpl.
  rewrite (nest_step_contents a a' (head rest) (head rest') st Ha).
  - destruct (nest_step a' (head rest') st); simpl; [by apply IH | done].
  - destruct rest, rest'; try discriminate; [done |].
    rewrite !fmap_cons in Hrest. unfold contents in Hrest. simpl.
    congruence.
Qed.

Lemma nestJson_contents nodes nodes' :
  contents <$> nodes = contents <$> nodes' ->
  nestJson nodes = nestJson nodes'.
Proof.
  intros Heq. unfold nestJson.
  rewrite (nest_loop_contents nodes nodes' _ Heq).
  apply (f_equal length) in Heq. rewrite !length_fmap in Heq.
  by rewrite Heq.
Qed.

(** C6, as the code has it.  Two runs of [flattenJson] on the same
    value give the same rows except for the identifiers, which are
    the successive draws of the random source, one per row; the value
    [nestJson] returns is determined by the keys, values and depths of
    the rows alone.  [nestJson] and [checkMatch] read nothing but
    their arguments. *)
Theorem flatten_deterministic_up_to_ids :
  (forall rnd1 rnd2 data depth n1 n2,
     same_rows (flattenJson rnd1 data depth n1).1
               (flattenJson rnd2 data depth n2).1)
  /\ (forall rnd data depth n,
        FlatNode.id <$> (flattenJson rnd data depth n).1
        = rnd <$> seq n (length (flattenJson rnd data depth n).1)
        /\ (flattenJson rnd data depth n).2
           = (n + length (flattenJson rnd data depth n).1)%nat)
  /\ (forall nodes nodes',
        contents <$> nodes = contents <$> nodes' ->
        nestJson nodes = nestJson nodes').
Proof.
  split; [intros; apply flattenJson_agree |].
  split; [| apply nestJson_contents].
  intros rnd data depth n.
  destruct (flattenJson_drawn rnd data depth n) as [Hm Hids]. done.
Qed.

Lemma flatten_deterministic_up_to_ids_witness :
  contents <$> (flattenJson rnd0 sample_json 0 0%nat).1
  = contents <$> (flattenJson rnd1 sample_json 0 0%nat).1
  /\ nestJson (flattenJson rnd0 sample_json 0 0%nat).1
     = nestJson (flattenJson rnd1 sample_json 0 0%nat).1.
Proof.
  split; [reflexivity |].
  apply (proj2 (proj2 flatten_deterministic_up_to_ids)). reflexivity.
Defined.

(** C6, as the specification words it, fails: two runs on the same
    value give rows with different identifiers when the random source
    draws differently. *)
Lemma flatten_ids_counterexample :
  flattenJson rnd0 sample_json 0 0%nat <> flattenJson rnd1 sample_json 0 0%nat
  /\ FlatNode.id <$> (flattenJson rnd0 sample_json 0 0%nat).1
     <> FlatNode.id <$> (flattenJson rnd1 sample_json 0 0%nat).1.
Proof. split; discriminate. Qed.

(** ** nestJson: the stack *)

Lemma pop_while_cons top f below d :
  pop_while (top :: f :: below) d
  = if d <=? fdepth top then pop_while (f :: below) d else top :: f :: below.
Proof. reflexivity. Qed.

Lemma pop_while_last stack d : last (pop_while stack d) = last stack.
Proof.
  induction stack as [|top [|f below] IH]; [done | done |].
  rewrite pop_while_cons. destruct (d <=? fdepth top); [| done].
  by rewrite IH, last_cons_cons.
Qed.

Lemma pop_while_Forall (P : frame -> Prop) stack d :
  Forall P stack -> Forall P (pop_while stack d).
Proof.
  induction stack as [|top [|f below] IH]; [done | done |].
  intros Hall. rewrite pop_while_cons. destruct (d <=? fdepth top); [| done].
  apply IH. by inversion Hall.
Qed.

Lemma pop_while_head stack d bottom :
  last stack = Some bottom -> is_Some (head (pop_while stack d)).
Proof.
  intros Hlast. rewrite <- (pop_while_last stack d) in Hlast.
  destruct (pop_while stack d); [done | by eexists].
Qed.

(** A frame that is not as deep as the row stays on top. *)
Lemma pop_while_keep top below d :
  fdepth top < d -> pop_while (top :: below) d = top :: below.
Proof.
  intros Hd. destruct below as [|f below]; [done |].
  rewrite pop_while_cons. destruct (Z.leb_spec d (fdepth top)); [lia | done].
Qed.

(** ** nestJson: the store *)

Lemma elem_of_assign props k v k' v' :
  (k', v') ∈ assign props k v -> (k', v') = (k, v) \/ (k', v') ∈ props.
Proof.
  induction props as [|[k0 v0] props IH]; simpl.
  - rewrite list_elem_of_singleton. auto.
  - case_decide as Hk; rewrite !elem_of_cons; [tauto |].
    intros [-> | Hin]; [auto |]. destruct (IH Hin); auto.
Qed.

Lemma assign_fresh props k v :
  k ∉ props.*1 -> assign props k v = props ++ [(k, v)].
Proof.
  induction props as [|[k0 v0] props IH]; simpl; [done |].
  intros Hnotin. apply not_elem_of_cons in Hnotin as [Hne Hnotin].
  rewrite decide_False by done. by rewrite IH.
Qed.

Lemma attach_object h parent props k v :
  h !! parent = Some (HObject props) ->
  attach h parent k v = Some (<[parent := HObject (assign props k v)]> h).
Proof. intros Hp. unfold attach. by rewrite Hp. Qed.

Lemma nest_inv_init : nest_inv nest_init.
Proof.
  split; simpl.
  - done.
  - repeat constructor.
  - repeat constructor. by eexists.
  - intros l props k l' Hl Hin. destruct l; simpl in Hl; [| done].
    injection Hl as <-. by apply elem_of_nil in Hin.
Qed.

Lemma nest_inv_target st node :
  nest_inv st ->
  exists top below props,
    pop_while (stack st) (FlatNode.depth node) = top :: below
    /\ (obj top < length (store st))%nat
    /\ store st !! obj top = Some (HObject props).
Proof.
  intros [Hlast Hbound Hobjs _].
  destruct (pop_while_head (stack st) (FlatNode.depth node) _ Hlast)
    as [top Htop].
  apply head_Some in Htop as [below Hpop]. 
  pose proof (pop_while_Forall _ _ (FlatNode.depth node) Hbound) as Hb.
  rewrite Hpop in Hb. apply Forall_cons in Hb as [Hlt _].
  destruct (lookup_lt_is_Some_2 _ _ Hlt) as [o Ho].
  destruct (proj1 (Forall_lookup _ _) Hobjs _ _ Ho) as [props ->].
  by exists top, below, props.
Qed.

(** The store and the stack after one row, spelled out. *)
Lemma nest_step_eq st node next top below props :
  pop_while (stack st) (FlatNode.depth node) = top :: below ->
  store st !! obj top = Some (HObject props) ->
  nest_step node next st =
    Some (if isParent node next then
            NState
              (<[obj top := HObject (assign props (FlatNode.key node)
                                       (HRef (length (store st))))]>
                 (store st ++ [HObject []]))
              (Frame (length (store st)) (FlatNode.depth node) :: top :: below)
          else
            NState
              (<[obj top := HObject (assign props (FlatNode.key node)
                                       (HLit (FlatNode.value node)))]>
                 (store st))
              (top :: below)).
Proof.
  intros Hpop Hp. unfold nest_step. rewrite Hpop. simpl.
  destruct (isParent node next).
  - erewrite attach_object; [done |].
    rewrite lookup_app_l; [done |]. by eapply lookup_lt_Some.
  - by erewrite attach_object.
Qed.

Lemma nest_step_inv node next st :
  nest_inv st ->
  exists st', nest_step node next st = Some st' /\ nest_inv st'.
Proof.
  intros Hinv.
  destruct (nest_inv_target st node Hinv) as (top & below & props & Hpop & Hlt & Hp).
  rewrite (nest_step_eq st node next top below props Hpop Hp).
  eexists; split; [done |].
  destruct Hinv as [Hlast Hbound Hobjs Hfwd].
  pose proof (pop_while_Forall _ _ (FlatNode.depth node) Hbound) as Hb.
  pose proof (pop_while_last (stack st) (FlatNode.depth node)) as Hl.
  rewrite Hpop in Hb, Hl.
  destruct (isParent node next); split; cbn [stack store].
  - by rewrite last_cons_cons, Hl.
  - rewrite length_insert, length_app. simpl. constructor; [simpl; lia |].
    eapply Forall_impl; [exact Hb |]. simpl. lia.
  - apply Forall_insert; [| by eexists].
    apply Forall_app. split; [done |]. repeat constructor. by eexists.
  - intros l ps k l' Hl' Hin. rewrite length_insert, length_app. simpl.
    apply list_lookup_insert_Some in Hl' as [(<- & [= <-] & _) | [Hne Hl']].
    + apply elem_of_assign in Hin as [[= _ ->] | Hin]; [lia |].
      pose proof (Hfwd _ _ _ _ Hp Hin). lia.
    + apply lookup_app_Some in Hl' as [Hl' | [_ Hl']].
      * pose proof (Hfwd _ _ _ _ Hl' Hin). lia.
      * destruct (l - length (store st))%nat; simpl in Hl'; [| done].
        injection Hl' as <-. by apply elem_of_nil in Hin.
  - by rewrite Hl.
  - by rewrite length_insert.
  - apply Forall_insert; [done | by eexists].
  - intros l ps k l' Hl' Hin. rewrite length_insert.
    apply list_lookup_insert_Some in Hl' as [(<- & [= <-] & _) | [Hne Hl']].
    + apply elem_of_assign in Hin as [[=] | Hin]. by eapply Hfwd.
    + by eapply Hfwd.
Qed.

Lemma nest_run_inv nodes after st :
  nest_inv st ->
  exists st', nest_run nodes after st = Some st' /\ nest_inv st'.
Proof.
  revert st. induction nodes as [|node rest IH]; intros st Hinv; simpl.
  - by exists st.
  - destruct (nest_step_inv node (next_of rest after) st Hinv)
      as (st1 & -> & Hinv1). simpl. by apply IH.
Qed.

Lemma nest_loop_run nodes st : nest_loop nodes st = nest_run nodes None st.
Proof.
  revert st. induction nodes as [|node rest IH]; intros st; simpl; [done |].
  replace (next_of rest None) with (head rest) by by destruct rest.
  destruct (nest_step node (head rest) st); simpl; [apply IH | done].
Qed.

Lemma nest_run_app seen todo after st :
  nest_run (seen ++ todo) after st
  = st' ← nest_run seen (next_of todo after) st; nest_run todo after st'.
Proof.
  revert st. induction seen as [|node rest IH]; intros st; simpl; [done |].
  replace (next_of (rest ++ todo) after)
    with (next_of rest (next_of todo after)) by by destruct rest, todo.
  destruct (nest_step node _ st); simpl; [apply IH | done].
Qed.

Lemma nest_loop_app seen todo st :
  nest_loop (seen ++ todo) st
  = st' ← nest_run seen (head todo) st; nest_loop todo st'.
Proof.
  rewrite nest_loop_run, nest_run_app.
  replace (next_of todo None) with (head todo) by by destruct todo.
  destruct (nest_run seen (head todo) st); simpl; [| done].
  by rewrite nest_loop_run.
Qed.

Lemma pop_while_suffix stack d :
  exists popped, stack = popped ++ pop_while stack d.
Proof.
  induction stack as [|top [|f below] IH]; [by exists [] | by exists [] |].
  rewrite pop_while_cons. destruct (d <=? fdepth top); [| by exists []].
  destruct IH as [popped IH]. exists (top :: popped).
  exact (f_equal (cons top) IH).
Qed.

Lemma target_on_stack st node tgt :
  target st node = Some tgt -> tgt ∈ obj <$> stack st.
Proof.
  unfold target. intros Htgt.
  destruct (pop_while_suffix (stack st) (FlatNode.depth node)) as [popped Hs].
  destruct (pop_while (stack st) (FlatNode.depth node)) as [|top below];
    [done |].
  simpl in Htgt. injection Htgt as <-. rewrite Hs, fmap_app, elem_of_app.
  right. rewrite fmap_cons, elem_of_cons. by left.
Qed.

(** ** nestJson: reading the result back *)

Lemma reify_lit fuel h j : reify fuel h (HLit j) = Some j.
Proof. by destruct fuel. Qed.

Lemma reify_object h fuel l :
  Forall (fun o => exists props, o = HObject props) h ->
  refs_forward h ->
  (l < length h)%nat -> (length h - l <= fuel)%nat ->
  exists members, reify fuel h (HRef l) = Some (JObject members).
Proof.
  intros Hobjs Hfwd. revert l.
  induction fuel as [|fuel IH]; intros l Hl Hfuel; [lia |].
  destruct (lookup_lt_is_Some_2 _ _ Hl) as [o Ho].
  destruct (proj1 (Forall_lookup _ _) Hobjs _ _ Ho) as [props ->].
  simpl. rewrite Ho.
  destruct (mapM_is_Some_2 (fun p => pair p.1 <$> reify fuel h p.2) props)
    as [members Hm]; [| rewrite Hm; eexists; reflexivity].
  apply Forall_forall. intros [k v] Hin. simpl.
  destruct v as [j | l']; [rewrite reify_lit; eexists; reflexivity |].
  pose proof (Hfwd _ _ _ _ Ho Hin) as Hl'.
  destruct (IH l') as [ms Hms]; [lia | lia |].
  rewrite Hms. eexists; reflexivity.
Qed.

Lemma has_array_object members :
  has_array (JObject members) = false
  <-> Forall (fun m => has_array m.2 = false) members.
Proof.
  induction members as [|m members IH].
  - split; [constructor | done].
  - rewrite Forall_cons, <- IH. simpl. apply orb_false_iff.
Qed.

Lemma scalar_no_array j : scalar j = true -> has_array j = false.
Proof. by destruct j. Qed.

Lemma reify_no_array h fuel v j :
  Forall (fun o => exists props, o = HObject props) h ->
  lits_of h (fun j => has_array j = false) ->
  (forall j', v = HLit j' -> has_array j' = false) ->
  reify fuel h v = Some j -> has_array j = false.
Proof.
  intros Hobjs Hlits. revert v j.
  induction fuel as [|fuel IH]; intros [j' | l] j Hv Hr;
    try (rewrite reify_lit in Hr; injection Hr as <-; by apply Hv);
    simpl in Hr; [done |].
  destruct (h !! l) as [o |] eqn:Ho; [| done].
  destruct (proj1 (Forall_lookup _ _) Hobjs _ _ Ho) as [props ->].
  apply fmap_Some in Hr as (members & Hm & ->).
  apply has_array_object. apply mapM_Some in Hm.
  assert (forall p, p ∈ props ->
            forall j', p.2 = HLit j' -> has_array j' = false) as Hps.
  { intros [k v] Hin j'' Hj. simpl in Hj. subst v. by eapply Hlits. }
  clear Ho. induction Hm as [|[k v] m props members Hp _ IHm]; constructor.
  - simpl in Hp. apply fmap_Some in Hp as (j0 & Hj0 & ->). simpl.
    apply (IH v); [| done]. apply (Hps (k, v)). apply elem_of_cons. by left.
  - apply IHm. intros p Hin. apply Hps. apply elem_of_cons. by right.
Qed.

Lemma nest_step_lits (P : json -> Prop) node next st st' :
  nest_inv st -> lits_of (store st) P -> P (FlatNode.value node) ->
  nest_step node next st = Some st' -> lits_of (store st') P.
Proof.
  intros Hinv Hlits Hv.
  destruct (nest_inv_target st node Hinv)
    as (top & below & props & Hpop & Hlt & Hp).
  rewrite (nest_step_eq st node next top below props Hpop Hp).
  intros [= <-]. intros l ps k j Hl Hin.
  destruct (isParent node next); cbn [store] in Hl;
    apply list_lookup_insert_Some in Hl as [(<- & [= <-] & _) | [Hne Hl]].
  - apply elem_of_assign in Hin as [[=] | Hin]. by eapply Hlits.
  - apply lookup_app_Some in Hl as [Hl | [_ Hl]]; [by eapply Hlits |].
    destruct (l - length (store st))%nat; simpl in Hl; [| done].
    injection Hl as <-. by apply elem_of_nil in Hin.
  - apply elem_of_assign in Hin as [[= _ ->] | Hin]; [done |].
    by eapply Hlits.
  - by eapply Hlits.
Qed.

Lemma nest_run_lits (P : json -> Prop) nodes after st st' :
  nest_inv st -> lits_of (store st) P ->
  Forall (fun node => P (FlatNode.value node)) nodes ->
  nest_run nodes after st = Some st' -> lits_of (store st') P.
Proof.
  revert st. induction nodes as [|node rest IH]; intros st Hinv Hlits Hall;
    simpl; [by intros [= <-] |].
  apply Forall_cons in Hall as [Hv Hall].
  destruct (nest_step_inv node (next_of rest after) st Hinv)
    as (st1 & Hstep & Hinv1).
  rewrite Hstep. simpl. apply IH; [done | | done].
  exact (nest_step_lits P node _ st st1 Hinv Hlits Hv Hstep).
Qed.

Lemma nestJson_object nodes :
  exists members, nestJson nodes = Some (JObject members).
Proof.
  unfold nestJson. case_bool_decide; [by eexists |].
  rewrite nest_loop_run.
  destruct (nest_run_inv nodes None nest_init nest_inv_init)
    as (st & -> & [Hlast Hbound Hobjs Hfwd]). simpl.
  apply reify_object; [done | done | | unfold root; lia].
  apply last_Some in Hlast as [l' Hs]. rewrite Hs in Hbound.
  apply Forall_app in Hbound as [_ Hroot]. by apply Forall_cons in Hroot as [? _].
Qed.


(** A row three levels deeper than the row before it is attached to
    that row's object; the next row, one level deep, joins it there. *)
Example nest_depth_gap :
  nestJson
    [row (js "r1") (js "a") empty_marker 0;
     row (js "r2") (js "b") (JStr (js "x")) 3;
     row (js "r3") (js "c") (JStr (js "y")) 1;
     row (js "r4") (js "d") JNull 0]
  = Some (JObject [(js "a", JObject [(js "b", JStr (js "x"));
                                     (js "c", JStr (js "y"))]);
                   (js "d", JNull)]).
Proof. vm_compute. reflexivity. Qed.

(** ** nestJson: containers *)

Lemma flatten_values_scalar rnd j depth n :
  Forall (fun node => scalar (FlatNode.value node) = true)
    (flattenJson rnd j depth n).1.
Proof.
  revert depth n.
  induction j as [| b | x | s | items IH | members IH] using json_induction;
    intros depth n; try by constructor.
  - rewrite flattenJson_array. generalize 0%nat. revert n.
    induction IH as [|item items Hitem _ IHitems]; intros n index;
      [by constructor |].
    cbn [forEach_items].
    assert (Forall (fun node => scalar (FlatNode.value node) = true)
              (element_rows rnd depth index item n).1) as Hrows.
    { unfold element_rows, generateId. specialize (Hitem (depth + 1) (S n)).
      destruct (typeof_object item) eqn:Hty.
      - destruct (flattenJson rnd item (depth + 1) (S n)) as [sub m].
        by constructor.
      - repeat constructor. by destruct item. }
    destruct (element_rows rnd depth index item n) as [rows m].
    rewrite forEach_items_nodes. apply Forall_app. split; [done |].
    apply IHitems.
  - rewrite flattenJson_object. revert n.
    induction IH as [|[k v] members Hv _ IHmembers]; intros n;
      [by constructor |].
    cbn [forEach_members].
    assert (Forall (fun node => scalar (FlatNode.value node) = true)
              (member_rows rnd depth k v n).1) as Hrows.
    { unfold member_rows, generateId. specialize (Hv (depth + 1) (S n)).
      cbn [snd] in Hv.
      destruct (typeof_object v && negb (is_null v)) eqn:Hty.
      - destruct (flattenJson rnd v (depth + 1) (S n)) as [sub m].
        by constructor.
      - repeat constructor. by destruct v. }
    destruct (member_rows rnd depth k v n) as [rows m].
    rewrite forEach_members_nodes. apply Forall_app. split; [done |].
    apply IHmembers.
Qed.

Lemma handleRowChange_scalar doc id v ty :
  Forall (fun node => scalar (FlatNode.value node) = true)
    (DocumentData.flatNodes doc) ->
  Forall (fun node => scalar (FlatNode.value node) = true)
    (handleRowChange doc id v ty).
Proof.
  intros Hall. unfold handleRowChange. apply Forall_fmap.
  eapply Forall_impl; [exact Hall |]. intros node Hnode. simpl.
  unfold edit_row. case_bool_decide; [done |]. by destruct ty.
Qed.

Lemma lits_of_init P : lits_of (store nest_init) P.
Proof.
  intros l props k j Hl Hin. destruct l; simpl in Hl; [| done].
  injection Hl as <-. by apply elem_of_nil in Hin.
Qed.

(** C10. No cell of the store is ever an array, so no entry of the
    stack, and no target of a row, is one: the branches of [nestJson]
    that push onto an array target are never taken.  [nestJson] puts
    no array into its result: with rows whose values hold none, as
    the scalars [flattenJson] and the row edits produce, the object
    it returns has no array anywhere. *)
Theorem nestJson_no_array :
  (forall seen todo,
     exists st,
       nest_run seen (head todo) nest_init = Some st
       /\ Forall (fun o => exists props, o = HObject props) (store st)
       /\ Forall (fun f => is_object_at (store st) (obj f)) (stack st))
  /\ (forall nodes,
        Forall (fun node => has_array (FlatNode.value node) = false) nodes ->
        exists members,
          nestJson nodes = Some (JObject members)
          /\ has_array (JObject members) = false)
  /\ (forall j, scalar j = true -> has_array j = false)
  /\ (forall rnd data depth n,
        Forall (fun node => scalar (FlatNode.value node) = true)
          (flattenJson rnd data depth n).1)
  /\ (forall doc id v ty,
        Forall (fun node => scalar (FlatNode.value node) = true)
          (DocumentData.flatNodes doc) ->
        Forall (fun node => scalar (FlatNode.value node) = true)
          (handleRowChange doc id v ty)).
Proof.
  split; [| split; [| split; [apply scalar_no_array | split;
    [apply flatten_values_scalar | apply handleRowChange_scalar]]]].
  - intros seen todo.
    destruct (nest_run_inv seen (head todo) nest_init nest_inv_init)
      as (st & Hrun & [Hlast Hbound Hobjs Hfwd]).
    exists st. split; [done |]. split; [done |].
    eapply Forall_impl; [exact Hbound |]. intros f Hf. simpl in Hf.
    destruct (lookup_lt_is_Some_2 _ _ Hf) as [o Ho].
    destruct (proj1 (Forall_lookup _ _) Hobjs _ _ Ho) as [props ->].
    by exists props.
  - intros nodes Hall.
    destruct (nestJson_object nodes) as [members Hm].
    exists members. split; [done |].
    unfold nestJson in Hm. case_bool_decide; [by injection Hm as <- |].
    rewrite nest_loop_run in Hm.
    destruct (nest_run_inv nodes None nest_init nest_inv_init)
      as (st & Hrun & Hinv).
    rewrite Hrun in Hm. simpl in Hm.
    eapply reify_no_array; [by destruct Hinv | | | exact Hm]; [| done].
    eapply (nest_run_lits _ nodes None nest_init);
      [apply nest_inv_init | apply lits_of_init | exact Hall | exact Hrun].
Qed.

Lemma nestJson_no_array_witness :
  Forall (fun node => scalar (FlatNode.value node) = true)
    (DocumentData.flatNodes sample_doc)
  /\ exists members,
       nestJson (handleRowChange sample_doc (js "r2") (js "y") value)
       = Some (JObject members)
       /\ has_array (JObject members) = false.
Proof.
  assert (Forall (fun node => scalar (FlatNode.value node) = true)
            (DocumentData.flatNodes sample_doc)) as Hall
    by (repeat constructor).
  split; [exact Hall |].
  apply (proj1 (proj2 nestJson_no_array)).
  eapply Forall_impl;
    [| intros node; apply (proj1 (proj2 (proj2 nestJson_no_array)))].
  apply (proj2 (proj2 (proj2 (proj2 nestJson_no_array)))). exact Hall.
Defined.

Lemma container_state_new st parent props node :
  (parent < length (store st))%nat ->
  store (container_state st parent props node) !! length (store st)
  = Some (HObject []).
Proof.
  intros Hlt. unfold container_state. cbn [store].
  rewrite list_lookup_insert_ne by lia.
  rewrite lookup_app_r by lia. by rewrite Nat.sub_diag.
Qed.



(** The value of a row that has a deeper successor does not reach the
    result; the same row followed by a row of its own depth is a leaf. *)
Example nest_children_win :
  nestJson [rowA; rowB; rowC]
  = Some (JObject [(js "a", JObject [(js "b", JStr (js "x"))]);
                   (js "c", JNum 1)])
  /\ nestJson [rowA; rowC]
     = Some (JObject [(js "a", JStr (js "kept text")); (js "c", JNum 1)]).
Proof. split; vm_compute; reflexivity. Qed.

(** ** Round trips *)

Lemma flatten_flat_object rnd members n :
  Forall (fun m => scalar m.2 = true) members ->
  contents <$> (flattenJson rnd (JObject members) 0 n).1
  = contents <$> flat_rows members.
Proof.
  intros Hall. rewrite flattenJson_object. revert n.
  induction Hall as [|[k v] members Hv _ IH]; intros n; [done |].
  cbn [forEach_members]. unfold member_rows, generateId.
  replace (typeof_object v && negb (is_null v)) with false
    by by destruct v.
  rewrite forEach_members_nodes. cbn [fst].
  unfold flat_rows. rewrite fmap_app, fmap_cons, IH. done.
Qed.

Lemma nest_loop_flat members props :
  nest_loop (flat_rows members) (NState [HObject props] [Frame root (-1)])
  = Some (NState
            [HObject (foldl (fun ps m => assign ps m.1 (HLit m.2))
                        props members)]
            [Frame root (-1)]).
Proof.
  revert props. induction members as [|m members IH]; intros props; [done |].
  unfold flat_rows. rewrite fmap_cons. cbn [nest_loop].
  replace (nest_step (row [] m.1 m.2 0)
             (head ((fun m => row [] m.1 m.2 0) <$> members))
             (NState [HObject props] [Frame root (-1)]))
    with (Some (NState [HObject (assign props m.1 (HLit m.2))]
                  [Frame root (-1)])).
  - simpl. apply IH.
  - unfold nest_step. cbn [stack pop_while head mbind option_bind].
    replace (isParent (row [] m.1 m.2 0)
               (head ((fun m => row [] m.1 m.2 0) <$> members)))
      with false by by destruct members.
    reflexivity.
Qed.

Lemma foldl_assign_fresh props members :
  NoDup (props.*1 ++ members.*1) ->
  foldl (fun ps m => assign ps m.1 (HLit m.2)) props members
  = props ++ lit_props members.
Proof.
  revert props. induction members as [|m members IH]; intros props Hnd;
    simpl; [by rewrite app_nil_r |].
  rewrite fmap_cons in Hnd.
  rewrite assign_fresh.
  - rewrite IH; [by rewrite <- app_assoc |].
    by rewrite fmap_app, <- app_assoc.
  - apply NoDup_app in Hnd as (_ & Hdisj & _). intros Hin.
    apply (Hdisj _ Hin). apply elem_of_cons. by left.
Qed.

Lemma reify_unfold fuel h l props :
  h !! l = Some (HObject props) ->
  reify (S fuel) h (HRef l)
  = JObject <$> mapM (fun p => pair p.1 <$> reify fuel h p.2) props.
Proof. intros Hl. simpl. by rewrite Hl. Qed.

Lemma reify_lit_props fuel h members :
  mapM (fun p => pair p.1 <$> reify fuel h p.2) (lit_props members)
  = Some members.
Proof.
  apply mapM_Some. unfold lit_props.
  induction members as [|[k v] members IH]; constructor; [| done].
  simpl. by rewrite reify_lit.
Qed.



(** C7. [flattenJson] of the array [["x", "y"]] is the two leaf rows
    [([0], "x", 0)] and [([1], "y", 0)], and [nestJson] of these rows
    is the object [{"[0]": "x", "[1]": "y"}], not an array. *)
Theorem array_degrades_to_object (rnd : entropy) (n : nat) :
  flattenJson rnd (JArray [JStr (js "x"); JStr (js "y")]) 0 n
  = ([row (rnd n) (js "[0]") (JStr (js "x")) 0;
      row (rnd (S n)) (js "[1]") (JStr (js "y")) 0], S (S n))
  /\ nestJson
       (flattenJson rnd (JArray [JStr (js "x"); JStr (js "y")]) 0 n).1
     = Some (JObject [(js "[0]", JStr (js "x")); (js "[1]", JStr (js "y"))])
  /\ isArray (JObject [(js "[0]", JStr (js "x")); (js "[1]", JStr (js "y"))])
     = false.
Proof.
  split; [reflexivity |]. split; [vm_compute; reflexivity | reflexivity].
Qed.

(** * Further properties *)

(** ** checkMatch *)

Lemma trim_start_id s :
  (forall c r, s = c :: r -> is_white_space c = false) -> trim_start s = s.
Proof.
  destruct s as [|c r]; [done |]. intros Hc. simpl.
  by rewrite (Hc c r eq_refl).
Qed.

Lemma trim_start_head s c r :
  trim_start s = c :: r -> is_white_space c = false.
Proof.
  destruct (trim_start_spec s) as (ws & _ & _ & Hhd). apply Hhd.
Qed.

Lemma trim_end_prefix s : exists ws, s = trim_end s ++ ws.
Proof.
  destruct (trim_start_spec (reverse s)) as (ws & Hs & _).
  exists (reverse ws). unfold trim_end.
  by rewrite <- reverse_app, <- Hs, reverse_involutive.
Qed.

Lemma trim_end_idemp s : trim_end (trim_end s) = trim_end s.
Proof.
  unfold trim_end. rewrite reverse_involutive. f_equal.
  apply trim_start_id. intros c r. apply trim_start_head.
Qed.

Lemma trim_idemp s : trim (trim s) = trim s.
Proof.
  unfold trim. rewrite (trim_start_id (trim_end (trim_start s))).
  - apply trim_end_idemp.
  - intros c r Hc. destruct (trim_end_prefix (trim_start s)) as [ws Hws].
    rewrite Hc in Hws. simpl in Hws. by eapply trim_start_head.
Qed.

Lemma checkMatch_string s source :
  checkMatch (JStr s) source
  = bool_decide (length (trim s) = 0%nat) || includes source (trim s).
Proof.
  unfold checkMatch. simpl. rewrite orb_false_r, negb_involutive.
  destruct (bool_decide_reflect (s = [])) as [-> | Hs]; [done |].
  by case_bool_decide.
Qed.

Lemma checkMatch_other v source :
  typeof_string v = false -> checkMatch v source = true.
Proof.
  intros Hv. unfold checkMatch. by rewrite Hv, orb_true_r.
Qed.

(** X1. Any contiguous piece of the source text, with or without white
    space around it, is a value that matches. *)
Theorem checkMatch_piece (source a s b : jsstring) :
  source = a ++ s ++ b -> checkMatch (JStr s) source = true.
Proof.
  intros ->. rewrite checkMatch_string. apply orb_true_iff. right.
  apply includes_spec. destruct (trim_spec s) as (ws1 & ws2 & Hs & _).
  exists (a ++ ws1), (ws2 ++ b). rewrite Hs at 1.
  by rewrite <- !app_assoc.
Qed.

Lemma checkMatch_piece_witness :
  js "say hello world now" = js "say" ++ js " hello world " ++ js "now"
  /\ checkMatch (JStr (js " hello world ")) (js "say hello world now") = true.
Proof.
  split; [reflexivity |].
  apply (checkMatch_piece _ (js "say") _ (js "now")). reflexivity.
Defined.

(** X2. Text added before or after the source never turns a match
    into a mismatch. *)
Theorem checkMatch_extend (v : json) (source a b : jsstring) :
  checkMatch v source = true -> checkMatch v (a ++ source ++ b) = true.
Proof.
  destruct (typeof_string v) eqn:Hv; [| intros _; by apply checkMatch_other].
  destruct v as [| | | s | |]; try discriminate Hv.
  rewrite !checkMatch_string, !orb_true_iff, !includes_spec.
  intros [Hlen | (l & r & ->)]; [by left | right].
  exists (a ++ l), (r ++ b). by rewrite <- !app_assoc.
Qed.

Lemma checkMatch_extend_witness :
  checkMatch (JStr (js "y")) (js "the value y") = true
  /\ checkMatch (JStr (js "y")) (js ">> " ++ js "the value y" ++ js " <<")
     = true.
Proof.
  split; [reflexivity |]. apply checkMatch_extend. reflexivity.
Defined.

(** X3. White space at the ends of a value does not count: a value
    and its trimmed form match the same sources, and trimming twice
    is trimming once. *)
Theorem checkMatch_trim (s source : jsstring) :
  checkMatch (JStr s) source = checkMatch (JStr (trim s)) source
  /\ trim (trim s) = trim s.
Proof.
  split; [| apply trim_idemp].
  by rewrite !checkMatch_string, trim_idemp.
Qed.

(** ** Documents *)

Lemma rematch_contents text node :
  contents (rematch text node) = contents node
  /\ FlatNode.id (rematch text node) = FlatNode.id node.
Proof. done. Qed.

Lemma rematch_rows_contents text (nodes : list FlatNode) :
  contents <$> (rematch text <$> nodes) = contents <$> nodes.
Proof. rewrite <- list_fmap_compose. by apply list_fmap_ext. Qed.

Lemma rematch_rematch t1 t2 (nodes : list FlatNode) :
  rematch t2 <$> (rematch t1 <$> nodes) = rematch t2 <$> nodes.
Proof. rewrite <- list_fmap_compose. by apply list_fmap_ext. Qed.

Lemma rematch_in_sync text (nodes : list FlatNode) id0 name0 raw :
  in_sync (DocumentData.mk id0 name0 text (rematch text <$> nodes) raw).
Proof.
  unfold in_sync. simpl. apply Forall_fmap, Forall_forall. by intros node _.
Qed.

(** X4. A new source text for the document [docId] leaves every other
    document as it was; in that document it leaves the identifier,
    key, value and depth of every row, and so the JSON that
    [nestJson] builds from the rows, and sets the [isMatch] of each
    row to what [checkMatch] says of its value against the new
    text. *)
Theorem handleSourceUpdate_spec (documents : list DocumentData)
    (docId newText : jsstring) :
  length (handleSourceUpdate documents docId newText) = length documents
  /\ forall i doc,
       documents !! i = Some doc ->
       exists doc',
         handleSourceUpdate documents docId newText !! i = Some doc'
         /\ DocumentData.id doc' = DocumentData.id doc
         /\ (DocumentData.id doc <> docId -> doc' = doc)
         /\ (DocumentData.id doc = docId ->
             DocumentData.sourceText doc' = newText
             /\ FlatNode.id <$> DocumentData.flatNodes doc'
                = FlatNode.id <$> DocumentData.flatNodes doc
             /\ contents <$> DocumentData.flatNodes doc'
                = contents <$> DocumentData.flatNodes doc
             /\ FlatNode.isMatch <$> DocumentData.flatNodes doc'
                = (fun node => Some (checkMatch (FlatNode.value node) newText))
                    <$> DocumentData.flatNodes doc
             /\ nestJson (DocumentData.flatNodes doc')
                = nestJson (DocumentData.flatNodes doc)).
Proof.
  unfold handleSourceUpdate. split; [apply length_fmap |].
  intros i doc Hi. rewrite list_lookup_fmap, Hi. simpl.
  eexists. split; [done |].
  case_bool_decide as Hid; [done |].
  split; [done |]. split; [done |]. intros _. simpl.
  split; [done |].
  split; [rewrite <- list_fmap_compose; by apply list_fmap_ext |].
  split; [apply rematch_rows_contents |].
  split; [rewrite <- list_fmap_compose; by apply list_fmap_ext |].
  apply nestJson_contents, rematch_rows_contents.
Qed.

Lemma handleSourceUpdate_spec_witness :
  [sample_doc] !! 0%nat = Some sample_doc
  /\ exists doc',
       handleSourceUpdate [sample_doc] (js "d1") (js "x marks it") !! 0%nat
       = Some doc'
       /\ DocumentData.sourceText doc' = js "x marks it"
       /\ FlatNode.isMatch <$> DocumentData.flatNodes doc'
          = [Some true; Some true; Some true].
Proof.
  split; [reflexivity |].
  destruct (proj2 (handleSourceUpdate_spec [sample_doc] (js "d1")
                     (js "x marks it")) 0%nat sample_doc eq_refl)
    as (doc' & Hdoc' & _ & _ & Hsame).
  destruct (Hsame eq_refl) as (Htext & _ & _ & Hmatch & _).
  exists doc'. split; [exact Hdoc' |]. split; [exact Htext |].
  rewrite Hmatch. reflexivity.
Defined.

(** X5. Of two source updates of one document the later one decides:
    updating to [t1] and then to [t2] is updating to [t2], and
    updating twice to the same text is updating once. *)
Theorem handleSourceUpdate_last (documents : list DocumentData)
    (docId t1 t2 : jsstring) :
  handleSourceUpdate (handleSourceUpdate documents docId t1) docId t2
  = handleSourceUpdate documents docId t2.
Proof.
  unfold handleSourceUpdate. rewrite <- list_fmap_compose.
  apply list_fmap_ext. intros i doc _. simpl.
  destruct (bool_decide_reflect (DocumentData.id doc ≠ docId)) as [Hid | Hid].
  - by rewrite bool_decide_true.
  - simpl. rewrite bool_decide_false by done.
    by rewrite rematch_rematch.
Qed.

Lemma unique_by_id (documents : list DocumentData) d1 d2 :
  NoDup (DocumentData.id <$> documents) ->
  d1 ∈ documents -> d2 ∈ documents ->
  DocumentData.id d1 = DocumentData.id d2 -> d1 = d2.
Proof.
  induction documents as [|d documents IH]; intros Hnd H1 H2 Hid.
  - by apply elem_of_nil in H1.
  - rewrite fmap_cons in Hnd. apply NoDup_cons in Hnd as [Hd Hnd].
    apply elem_of_cons in H1 as [-> | H1];
      apply elem_of_cons in H2 as [-> | H2]; [done | | | by apply IH].
    + destruct Hd. rewrite Hid. by apply list_elem_of_fmap_2.
    + destruct Hd. rewrite <- Hid. by apply list_elem_of_fmap_2.
Qed.

Lemma edit_row_in_sync doc id v ty node :
  FlatNode.isMatch node
  = Some (checkMatch (FlatNode.value node) (DocumentData.sourceText doc)) ->
  FlatNode.isMatch (edit_row doc id v ty node)
  = Some (checkMatch (FlatNode.value (edit_row doc id v ty node))
            (DocumentData.sourceText doc)).
Proof.
  intros Hnode. unfold edit_row. case_bool_decide; [done |]. by destruct ty.
Qed.

(** X6. The match flags stay in step with the source text.  A loaded
    document has, on every row, the [isMatch] that [checkMatch] gives
    for the row's value and the document's source text; a source
    update keeps this for all documents and restores it for the
    updated one; a row edit of a document, handed to
    [handleDocUpdate], keeps it for all documents when no two of
    them share an identifier. *)
Theorem in_sync_kept :
  (forall rnd docid name0 jsonContent textContent n,
     in_sync (loadDocument rnd docid name0 jsonContent textContent n).1)
  /\ (forall documents docId newText,
        Forall in_sync documents ->
        Forall in_sync (handleSourceUpdate documents docId newText))
  /\ (forall documents docId newText doc,
        doc ∈ handleSourceUpdate documents docId newText ->
        DocumentData.id doc = docId -> in_sync doc)
  /\ (forall documents doc id v ty,
        Forall in_sync documents ->
        NoDup (DocumentData.id <$> documents) ->
        doc ∈ documents ->
        Forall in_sync (editDocument documents doc id v ty)).
Proof.
  split; [| split; [| split]].
  - intros rnd docid name0 jsonContent textContent n. unfold loadDocument.
    destruct (flattenJson rnd jsonContent 0 n) as [flatNodes m].
    apply rematch_in_sync.
  - intros documents docId newText Hall. unfold handleSourceUpdate.
    apply Forall_fmap. eapply Forall_impl; [exact Hall |].
    intros doc Hdoc. simpl. case_bool_decide; [done |].
    apply rematch_in_sync.
  - intros documents docId newText doc Hin Hid.
    unfold handleSourceUpdate in Hin.
    apply list_elem_of_fmap in Hin as (doc0 & -> & _).
    destruct (bool_decide_reflect (DocumentData.id doc0 ≠ docId)) as [Hne | _];
      [done |].
    apply rematch_in_sync.
  - intros documents doc id v ty Hall Hnd Hdoc.
    unfold editDocument, handleDocUpdate. apply Forall_fmap.
    apply Forall_forall. intros d Hd. simpl.
    pose proof (proj1 (Forall_forall _ _) Hall d Hd) as Hsync.
    case_bool_decide as Hid; [| done].
    assert (d = doc) as -> by by eapply unique_by_id.
    unfold in_sync, handleRowChange in *. simpl.
    apply Forall_fmap. eapply Forall_impl; [exact Hsync |].
    intros node Hnode. simpl. by apply edit_row_in_sync.
Qed.

Lemma in_sync_kept_witness :
  let doc := (loadDocument rnd0 rnd1 (js "sample") sample_json
                (js "an x in the text") 0%nat).1 in
  Forall in_sync [doc]
  /\ NoDup (DocumentData.id <$> [doc])
  /\ doc ∈ [doc]
  /\ Forall in_sync (editDocument [doc] doc (rnd0 1%nat) (js "zebra") value)
  /\ Forall in_sync
       (handleSourceUpdate
          (editDocument [doc] doc (rnd0 1%nat) (js "zebra") value)
          (rnd1 3%nat) (js "a zebra crossing")).
Proof.
  intros doc.
  assert (Forall in_sync [doc]) as Hall.
  { constructor; [| constructor]. apply (proj1 in_sync_kept). }
  assert (NoDup (DocumentData.id <$> [doc])) as Hnd.
  { apply NoDup_cons. split; [apply not_elem_of_nil | apply NoDup_nil_2]. }
  assert (doc ∈ [doc]) as Hin by (apply elem_of_cons; by left).
  split; [exact Hall |]. split; [exact Hnd |]. split; [exact Hin |].
  pose proof (proj2 (proj2 (proj2 in_sync_kept)) [doc] doc (rnd0 1%nat)
                (js "zebra") value Hall Hnd Hin) as Hedit.
  split; [exact Hedit |].
  apply (proj1 (proj2 in_sync_kept)). exact Hedit.
Defined.

(** ** The depths flattenJson emits *)

Lemma stepped_app rows1 rows2 :
  stepped rows1 -> stepped rows2 ->
  (forall a b, last rows1 = Some a -> head rows2 = Some b -> follows a b) ->
  stepped (rows1 ++ rows2).
Proof.
  intros H1 H2 Hjoin. induction rows1 as [|a [|b rows1] IH].
  - done.
  - destruct rows2 as [|b rows2]; [done |]. simpl. split; [| done].
    by apply Hjoin.
  - destruct H1 as [Hab H1]. split; [done |].
    apply IH; [done |]. intros a' b' Ha'. apply Hjoin.
    by rewrite last_cons_cons.
Qed.

Lemma stepped_lookup rows i a b :
  stepped rows -> rows !! i = Some a -> rows !! S i = Some b -> follows a b.
Proof.
  revert i. induction rows as [|a' [|b' rows] IH]; intros i Hs Ha Hb;
    [done | by destruct i |].
  destruct Hs as [Hab Hs]. destruct i as [|i].
  - simpl in Ha, Hb. by injection Ha as <-; injection Hb as <-.
  - by apply (IH i).
Qed.

Lemma rooted_nil d : rooted d [].
Proof. split; [constructor | done]. Qed.

Lemma rooted_app d rows1 rows2 :
  rooted d rows1 -> rooted d rows2 -> rooted d (rows1 ++ rows2).
Proof.
  intros [H1 Hh1] [H2 Hh2]. split; [by apply Forall_app |].
  destruct rows1; [done |]. simpl. apply Hh1.
Qed.

(** The rows of one member or element: a leaf, or a container row and
    the rows of the child. *)
Lemma entry_shape rnd depth k v n sub m :
  flattenJson rnd v (depth + 1) (S n) = (sub, m) ->
  rooted (depth + 1) sub -> stepped sub ->
  rooted depth (row (rnd n) k empty_marker depth :: sub)
  /\ stepped (row (rnd n) k empty_marker depth :: sub).
Proof.
  intros _ [Hall Hhead] Hs. split.
  - split; [| by intros node [= <-]].
    constructor; [simpl; lia |].
    eapply Forall_impl; [exact Hall |]. simpl. lia.
  - destruct sub as [|b sub]; [done |]. split; [| done].
    unfold follows. simpl. rewrite (Hhead b eq_refl). split; [lia | done].
Qed.

Lemma join_follows d rows1 rows2 a b :
  rooted d rows1 -> rooted d rows2 ->
  last rows1 = Some a -> head rows2 = Some b -> follows a b.
Proof.
  intros [H1 _] [_ Hh2] Ha Hb. unfold follows. rewrite (Hh2 b Hb).
  apply last_Some_elem_of in Ha.
  pose proof (proj1 (Forall_forall _ _) H1 a Ha) as Hd. simpl in Hd.
  split; lia.
Qed.

Lemma flattenJson_shape rnd j depth n :
  rooted depth (flattenJson rnd j depth n).1
  /\ stepped (flattenJson rnd j depth n).1.
Proof.
  revert depth n.
  induction j as [| b | x | s | items IH | members IH] using json_induction;
    intros depth n; try (split; [apply rooted_nil | done]).
  - rewrite flattenJson_array. generalize 0%nat. revert n.
    induction IH as [|item items Hitem _ IHitems]; intros n index;
      [split; [apply rooted_nil | done] |].
    cbn [forEach_items].
    assert (rooted depth (element_rows rnd depth index item n).1
            /\ stepped (element_rows rnd depth index item n).1) as [Hr Hs].
    { unfold element_rows, generateId. destruct (typeof_object item).
      - destruct (Hitem (depth + 1) (S n)) as [Hr Hs].
        destruct (flattenJson rnd item (depth + 1) (S n)) as [sub m] eqn:Hsub.
        by eapply entry_shape.
      - split; [| done]. split; [by repeat constructor |].
        by intros node [= <-]. }
    destruct (element_rows rnd depth index item n) as [rows m].
    rewrite forEach_items_nodes. cbn [fst snd app] in *.
    destruct (IHitems m (S index)) as [Hr' Hs'].
    split; [by apply rooted_app |].
    apply stepped_app; [done | done |]. intros a b. by eapply join_follows.
  - rewrite flattenJson_object. revert n.
    induction IH as [|[k v] members Hv _ IHmembers]; intros n;
      [split; [apply rooted_nil | done] |].
    cbn [forEach_members].
    assert (rooted depth (member_rows rnd depth k v n).1
            /\ stepped (member_rows rnd depth k v n).1) as [Hr Hs].
    { unfold member_rows, generateId.
      destruct (typeof_object v && negb (is_null v)).
      - destruct (Hv (depth + 1) (S n)) as [Hr Hs]. cbn [snd] in Hr, Hs.
        destruct (flattenJson rnd v (depth + 1) (S n)) as [sub m] eqn:Hsub.
        by eapply entry_shape.
      - split; [| done]. split; [by repeat constructor |].
        by intros node [= <-]. }
    destruct (member_rows rnd depth k v n) as [rows m].
    rewrite forEach_members_nodes. cbn [fst snd app] in *.
    destruct (IHmembers m) as [Hr' Hs'].
    split; [by apply rooted_app |].
    apply stepped_app; [done | done |]. intros a b. by eapply join_follows.
Qed.

(** X7. The rows [flattenJson] emits for depth [d] start at depth [d]
    and never go above it, and from one row to the next the depth
    grows by at most one, and grows only after a row that carries the
    empty marker: no depth gap and no child under a row with a value
    of its own. *)
Theorem flattenJson_depths (rnd : entropy) (data : json) (depth : Z) (n : nat) :
  Forall (fun node => depth <= FlatNode.depth node)
    (flattenJson rnd data depth n).1
  /\ (forall node, head (flattenJson rnd data depth n).1 = Some node ->
                   FlatNode.depth node = depth)
  /\ (forall i a b,
        (flattenJson rnd data depth n).1 !! i = Some a ->
        (flattenJson rnd data depth n).1 !! S i = Some b ->
        FlatNode.depth b <= FlatNode.depth a + 1
        /\ (FlatNode.depth a < FlatNode.depth b ->
            FlatNode.value a = empty_marker)).
Proof.
  destruct (flattenJson_shape rnd data depth n) as [[Hall Hhead] Hs].
  split; [done |]. split; [done |].
  intros i a b Ha Hb. exact (stepped_lookup _ i a b Hs Ha Hb).
Qed.

Lemma flattenJson_depths_witness :
  (flattenJson rnd0 sample_json 0 0%nat).1 !! 0%nat
  = Some (row (rnd0 0%nat) (js "a") empty_marker 0)
  /\ (flattenJson rnd0 sample_json 0 0%nat).1 !! 1%nat
     = Some (row (rnd0 1%nat) (js "b") (JStr (js "x")) 1)
  /\ (1 <= 0 + 1 /\ (0 < 1 -> empty_marker = empty_marker)).
Proof.
  split; [reflexivity |]. split; [reflexivity |].
  exact (proj2 (proj2 (flattenJson_depths rnd0 sample_json 0 0%nat))
           0%nat _ _ eq_refl eq_refl).
Defined.

(** ** The tree view *)

(** X8. On the rows [flattenJson] emits, the tree view shows a row as
    a container exactly when its value is the empty string: the test
    on the next row adds nothing there, and a leaf whose value is the
    empty string is shown as a container too.  On any rows, a row
    that [nestJson] turns into a container is shown as one. *)
Theorem isContainer_flatten (rnd : entropy) (data : json) (depth : Z) (n : nat) :
  (forall i node,
     (flattenJson rnd data depth n).1 !! i = Some node ->
     isContainer (flattenJson rnd data depth n).1 i node
     = is_empty_string (FlatNode.value node))
  /\ (forall nodes i node,
        isParent node (nodes !! (i + 1)%nat) = true ->
        isContainer nodes i node = true).
Proof.
  split.
  - intros i node Hi. unfold isContainer. rewrite Nat.add_1_r.
    destruct (is_empty_string (FlatNode.value node)) eqn:Hv; [done |].
    destruct ((flattenJson rnd data depth n).1 !! S i) as [next |] eqn:Hnext;
      [| done].
    destruct (stepped_lookup _ i node next
                (proj2 (flattenJson_shape rnd data depth n)) Hi Hnext)
      as [_ Hmarker].
    destruct (Z.ltb_spec (FlatNode.depth node) (FlatNode.depth next));
      [| done].
    rewrite Hmarker in Hv by done. discriminate Hv.
  - intros nodes i node Hp. unfold isContainer, isParent in *.
    destruct (nodes !! (i + 1)%nat); [| done].
    rewrite Hp. apply orb_true_r.
Qed.

Lemma isContainer_flatten_witness :
  (flattenJson rnd0 (JObject [(js "a", JStr [])]) 0 0%nat).1 !! 0%nat
  = Some (row (rnd0 0%nat) (js "a") (JStr []) 0)
  /\ isContainer (flattenJson rnd0 (JObject [(js "a", JStr [])]) 0 0%nat).1
       0%nat (row (rnd0 0%nat) (js "a") (JStr []) 0)
     = true
  /\ isParent rowA ([rowA; rowB] !! (0 + 1)%nat) = true
  /\ isContainer [rowA; rowB] 0%nat rowA = true.
Proof.
  split; [reflexivity |].
  split.
  - exact (proj1 (isContainer_flatten rnd0 (JObject [(js "a", JStr [])]) 0
                    0%nat) 0%nat _ eq_refl).
  - split; [reflexivity |].
    exact (proj2 (isContainer_flatten rnd0 JNull 0 0%nat)
             [rowA; rowB] 0%nat rowA eq_refl).
Defined.

Lemma edit_row_depth doc id v ty node :
  0 <= FlatNode.depth node -> 0 <= FlatNode.depth (edit_row doc id v ty node).
Proof.
  intros Hd. unfold edit_row. case_bool_decide; [done |].
  destruct ty; simpl; try done.
  rewrite structure_depth_count. case_decide; lia.
Qed.

(** X9. The structure token of every row can be rendered.  The rows
    of a loaded document have depths that are not negative, row edits
    and source updates keep them so, and for such a depth
    [getHashTags] returns a token, one ['#'] longer than the depth,
    and raises no RangeError. *)
Theorem structure_renderable :
  (forall rnd docid name0 jsonContent textContent n,
     Forall (fun node => 0 <= FlatNode.depth node)
       (DocumentData.flatNodes
          (loadDocument rnd docid name0 jsonContent textContent n).1))
  /\ (forall doc id v ty,
        Forall (fun node => 0 <= FlatNode.depth node)
          (DocumentData.flatNodes doc) ->
        Forall (fun node => 0 <= FlatNode.depth node)
          (handleRowChange doc id v ty))
  /\ (forall text nodes,
        Forall (fun node => 0 <= FlatNode.depth node) nodes ->
        Forall (fun node => 0 <= FlatNode.depth node) (rematch text <$> nodes))
  /\ (forall node,
        0 <= FlatNode.depth node ->
        getHashTags (FlatNode.depth node)
        = Some (replicate (S (Z.to_nat (FlatNode.depth node))) hash)).
Proof.
  split; [| split; [| split]].
  - intros rnd docid name0 jsonContent textContent n. unfold loadDocument.
    pose proof (proj1 (proj1 (flattenJson_shape rnd jsonContent 0 n))) as Hall.
    destruct (flattenJson rnd jsonContent 0 n) as [flatNodes m]. simpl in *.
    apply Forall_fmap. eapply Forall_impl; [exact Hall |]. done.
  - intros doc id v ty Hall. unfold handleRowChange. apply Forall_fmap.
    eapply Forall_impl; [exact Hall |]. intros node. apply edit_row_depth.
  - intros text nodes Hall. apply Forall_fmap.
    eapply Forall_impl; [exact Hall |]. done.
  - intros node Hd. unfold getHashTags, repeat_hash.
    destruct (Z.ltb_spec (FlatNode.depth node + 1) 0); [lia |].
    do 2 f_equal. lia.
Qed.

Lemma structure_renderable_witness :
  Forall (fun node => 0 <= FlatNode.depth node) (DocumentData.flatNodes sample_doc)
  /\ Forall (fun node => 0 <= FlatNode.depth node)
       (handleRowChange sample_doc (js "r2") (js "no marker") structure)
  /\ getHashTags (FlatNode.depth rowB) = Some (js "##").
Proof.
  assert (Forall (fun node => 0 <= FlatNode.depth node)
            (DocumentData.flatNodes sample_doc)) as Hall
    by (repeat constructor; discriminate).
  split; [exact Hall |].
  split; [exact (proj1 (proj2 structure_renderable) _ _ _ _ Hall) |].
  apply (proj2 (proj2 (proj2 structure_renderable)) rowB). discriminate.
Defined.

Lemma visible_loop_sublist collapsedIds nodes h :
  sublist (visible_loop collapsedIds nodes h) nodes.
Proof.
  revert h. induction nodes as [|node rest IH]; intros h; simpl.
  - constructor.
  - destruct (_ && _); [by apply sublist_cons | by apply sublist_skip].
Qed.

Lemma visible_loop_open collapsedIds pre rest :
  Forall (fun node => FlatNode.id node ∉ collapsedIds) pre ->
  visible_loop collapsedIds (pre ++ rest) (-1)
  = pre ++ visible_loop collapsedIds rest (-1).
Proof.
  induction 1 as [|node pre Hnode _ IH]; [done |]. simpl.
  by rewrite bool_decide_false, IH.
Qed.

Lemma visible_loop_hidden collapsedIds run rest h :
  h <> -1 ->
  Forall (fun node => h < FlatNode.depth node) run ->
  visible_loop collapsedIds (run ++ rest) h = visible_loop collapsedIds rest h.
Proof.
  intros Hh. induction 1 as [|node run Hnode _ IH]; [done |]. simpl.
  rewrite bool_decide_true by done.
  by destruct (Z.ltb_spec h (FlatNode.depth node)); [| lia].
Qed.

Lemma visible_loop_reset collapsedIds rest h :
  (forall node, head rest = Some node -> FlatNode.depth node <= h) ->
  visible_loop collapsedIds rest h = visible_loop collapsedIds rest (-1).
Proof.
  destruct rest as [|node rest]; [done |]. intros Hhead. simpl.
  specialize (Hhead node eq_refl).
  destruct (Z.ltb_spec h (FlatNode.depth node)); [lia |].
  by rewrite andb_false_r.
Qed.

(** X10. The visible rows are rows of the sequence, in their order;
    when no row is collapsed they are all of them. *)
Theorem visibleNodes_sublist (nodes : list FlatNode)
    (collapsedIds : gset jsstring) :
  sublist (visibleNodes nodes collapsedIds) nodes
  /\ (Forall (fun node => FlatNode.id node ∉ collapsedIds) nodes ->
      visibleNodes nodes collapsedIds = nodes)
  /\ visibleNodes nodes ∅ = nodes.
Proof.
  split; [apply visible_loop_sublist |].
  assert (forall ids, Forall (fun node => FlatNode.id node ∉ ids) nodes ->
                      visibleNodes nodes ids = nodes) as Hopen.
  { intros ids Hall. unfold visibleNodes.
    rewrite <- (app_nil_r nodes) at 1.
    rewrite visible_loop_open by done. simpl. apply app_nil_r. }
  split; [apply Hopen |].
  apply Hopen, Forall_forall. intros node _. apply not_elem_of_empty.
Qed.

Lemma visibleNodes_sublist_witness :
  Forall (fun node => FlatNode.id node ∉ ({[js "zz"]} : gset jsstring))
    [rowA; rowB; rowC]
  /\ visibleNodes [rowA; rowB; rowC] {[js "zz"]} = [rowA; rowB; rowC].
Proof.
  assert (Forall (fun node => FlatNode.id node ∉ ({[js "zz"]} : gset jsstring))
            [rowA; rowB; rowC]) as Hall.
  { repeat constructor; intros Hin; apply elem_of_singleton in Hin;
      discriminate Hin. }
  split; [exact Hall |].
  exact (proj1 (proj2 (visibleNodes_sublist _ _)) Hall).
Defined.

(** X11. Collapsing hides a subtree and nothing else.  When the rows
    before a collapsed row [c] are not collapsed, [c] is shown, the
    rows that follow it and are deeper than it are hidden up to the
    first row that is not deeper, and from that row on the rows are
    shown as if [c] were not there. *)
Theorem visibleNodes_collapse (collapsedIds : gset jsstring)
    (pre : list FlatNode) (c : FlatNode) (run rest : list FlatNode) :
  Forall (fun node => FlatNode.id node ∉ collapsedIds) pre ->
  FlatNode.id c ∈ collapsedIds ->
  0 <= FlatNode.depth c ->
  Forall (fun node => FlatNode.depth c < FlatNode.depth node) run ->
  (forall node, head rest = Some node ->
                FlatNode.depth node <= FlatNode.depth c) ->
  visibleNodes (pre ++ c :: run ++ rest) collapsedIds
  = pre ++ c :: visibleNodes rest collapsedIds.
Proof.
  intros Hpre Hc Hd Hrun Hrest. unfold visibleNodes.
  rewrite visible_loop_open by done. f_equal. simpl.
  rewrite bool_decide_true by done. f_equal.
  rewrite visible_loop_hidden by (done || lia).
  by apply visible_loop_reset.
Qed.

Lemma visibleNodes_collapse_witness :
  visibleNodes ([rowC] ++ rowA :: [rowB] ++ [rowC]) {[js "r1"]}
  = [rowC] ++ rowA :: visibleNodes [rowC] {[js "r1"]}.
Proof.
  apply visibleNodes_collapse.
  - repeat constructor. intros Hin. apply elem_of_singleton in Hin.
    discriminate Hin.
  - by apply elem_of_singleton.
  - discriminate.
  - by repeat constructor.
  - intros node [= <-]. discriminate.
Defined.

(** X12. Toggling a row twice leaves the collapsed set as it was, and
    one toggle changes the state of that row alone. *)
Theorem toggleCollapse_involutive (collapsedIds : gset jsstring)
    (id : jsstring) :
  toggleCollapse (toggleCollapse collapsedIds id) id = collapsedIds
  /\ (id ∈ toggleCollapse collapsedIds id <-> id ∉ collapsedIds)
  /\ (forall id', id' <> id ->
        (id' ∈ toggleCollapse collapsedIds id <-> id' ∈ collapsedIds)).
Proof.
  unfold toggleCollapse.
  destruct (bool_decide_reflect (id ∈ collapsedIds)) as [Hin | Hin].
  - rewrite bool_decide_false
      by (rewrite elem_of_difference, elem_of_singleton; tauto).
    split; [| split].
    + apply set_eq. intros x.
      rewrite elem_of_union, elem_of_difference, !elem_of_singleton.
      destruct (decide (x = id)) as [-> | Hx]; tauto.
    + rewrite elem_of_difference, elem_of_singleton. tauto.
    + intros id' Hne. rewrite elem_of_difference, elem_of_singleton. tauto.
  - rewrite bool_decide_true
      by (rewrite elem_of_union, elem_of_singleton; tauto).
    split; [| split].
    + apply set_eq. intros x.
      rewrite elem_of_difference, elem_of_union, !elem_of_singleton.
      destruct (decide (x = id)) as [-> | Hx]; tauto.
    + rewrite elem_of_union, elem_of_singleton. tauto.
    + intros id' Hne. rewrite elem_of_union, elem_of_singleton. tauto.
Qed.

Lemma toggleCollapse_involutive_witness :
  js "r2" <> js "r1"
  /\ (js "r2" ∈ toggleCollapse {[js "r2"]} (js "r1")
      <-> js "r2" ∈ ({[js "r2"]} : gset jsstring)).
Proof.
  assert (js "r2" <> js "r1") as Hne by discriminate.
  split; [exact Hne |].
  exact (proj2 (proj2 (toggleCollapse_involutive {[js "r2"]} (js "r1")))
           (js "r2") Hne).
Defined.

(** ** The comparison list *)

(** X13. The comparison list never holds a document twice: adding
    keeps the identifiers distinct and does nothing for one that is
    there, removing takes the identifier out and keeps the others in
    their order, and removing what was just added gives the list
    back. *)
Theorem comparison_list (compareDocIds : list jsstring) (docId : jsstring) :
  (NoDup compareDocIds -> NoDup (addToComparison compareDocIds docId))
  /\ docId ∈ addToComparison compareDocIds docId
  /\ addToComparison (addToComparison compareDocIds docId) docId
     = addToComparison compareDocIds docId
  /\ (docId ∉ removeFromComparison compareDocIds docId)
  /\ (NoDup compareDocIds -> NoDup (removeFromComparison compareDocIds docId))
  /\ (docId ∉ compareDocIds ->
      removeFromComparison (addToComparison compareDocIds docId) docId
      = compareDocIds).
Proof.
  assert (forall ids : list jsstring,
            docId ∉ ids -> filter (fun id => id ≠ docId) ids = ids) as Hkeep.
  { intros ids. induction ids as [|id ids IH]; [done |].
    intros [Hne Hin]%not_elem_of_cons.
    rewrite filter_cons_True by done. by rewrite IH. }
  assert (docId ∈ addToComparison compareDocIds docId) as Hmem.
  { unfold addToComparison. case_bool_decide; simpl; [done |].
    apply elem_of_app. right. by apply list_elem_of_singleton. }
  split; [| split; [done | split; [| split; [| split]]]].
  - intros Hnd. unfold addToComparison. case_bool_decide; simpl; [done |].
    apply NoDup_app. split; [done |]. split; [| apply NoDup_singleton].
    intros x Hx Hx'. apply list_elem_of_singleton in Hx'. by subst.
  - unfold addToComparison at 1. by rewrite bool_decide_true.
  - unfold removeFromComparison. intros Hin.
    apply list_elem_of_filter in Hin as [Hne _]. done.
  - apply NoDup_filter.
  - intros Hin. unfold addToComparison, removeFromComparison.
    rewrite bool_decide_false by done. simpl.
    rewrite filter_app, Hkeep by done.
    rewrite filter_cons_False by (intros Hne; by apply Hne). simpl.
    apply app_nil_r.
Qed.

Lemma comparison_list_witness :
  NoDup [js "d1"; js "d2"]
  /\ NoDup (addToComparison [js "d1"; js "d2"] (js "d3"))
  /\ (js "d3" ∉ [js "d1"; js "d2"])
  /\ removeFromComparison (addToComparison [js "d1"; js "d2"] (js "d3"))
       (js "d3")
     = [js "d1"; js "d2"].
Proof.
  assert (NoDup [js "d1"; js "d2"]) as Hnd.
  { refine (@bool_decide_unpack (NoDup _) _ _). vm_compute. exact I. }
  assert (js "d3" ∉ [js "d1"; js "d2"]) as Hin.
  { refine (@bool_decide_unpack (_ ∉ _) _ _). vm_compute. exact I. }
  split; [exact Hnd |].
  split; [exact (proj1 (comparison_list _ (js "d3")) Hnd) |].
  split; [exact Hin |].
  exact (proj2 (proj2 (proj2 (proj2 (proj2 (comparison_list _ (js "d3"))))))
           Hin).
Defined.

(** ** nestJson on well-nested rows *)

Lemma mapM_ext_in {A B} (f g : A -> option B) (l : list A) (k : list B) :
  mapM f l = Some k ->
  (forall x y, x ∈ l -> f x = Some y -> g x = Some y) ->
  mapM g l = Some k.
Proof.
  intros Hm Hfg. apply mapM_Some. apply mapM_Some in Hm.
  induction Hm as [|x y l k Hxy _ IH]; constructor.
  - apply Hfg; [apply elem_of_cons; by left | done].
  - apply IH. intros x' y' Hin. apply Hfg. apply elem_of_cons. by right.
Qed.

Lemma reify_mono fuel fuel' h v j :
  reify fuel h v = Some j -> (fuel <= fuel')%nat -> reify fuel' h v = Some j.
Proof.
  revert fuel' v j. induction fuel as [|fuel IH]; intros fuel' [j' | l] j Hr Hle.
  - rewrite reify_lit in *. done.
  - done.
  - rewrite reify_lit in *. done.
  - destruct fuel' as [|fuel']; [lia |]. simpl in *.
    destruct (h !! l) as [[props | elems] |]; [| | done].
    + apply fmap_Some in Hr as (ms & Hm & ->).
      erewrite mapM_ext_in; [done | exact Hm |].
      intros p m _ Hp. simpl in *.
      apply fmap_Some in Hp as (j0 & Hj0 & ->).
      by rewrite (IH fuel' _ _ Hj0) by lia.
    + apply fmap_Some in Hr as (ms & Hm & ->).
      erewrite mapM_ext_in; [done | exact Hm |].
      intros p m _ Hp. apply IH; [done | lia].
Qed.

(** Reading a cell back depends only on the cells from it onwards. *)
Lemma reify_agree fuel h h' m v j :
  Forall (fun o => exists props, o = HObject props) h ->
  refs_forward h ->
  (forall i, (m <= i)%nat -> (i < length h)%nat -> h' !! i = h !! i) ->
  (forall l, v = HRef l -> (m <= l)%nat) ->
  reify fuel h v = Some j -> reify fuel h' v = Some j.
Proof.
  intros Hobjs Hfwd Hsame. revert v j.
  induction fuel as [|fuel IH]; intros [j' | l] j Hv Hr;
    try (rewrite reify_lit in *; done); [done |].
  simpl in *. destruct (h !! l) as [o |] eqn:Ho; [| done].
  destruct (proj1 (Forall_lookup _ _) Hobjs _ _ Ho) as [props ->].
  rewrite Hsame, Ho; [| by apply Hv | by eapply lookup_lt_Some].
  apply fmap_Some in Hr as (ms & Hm & ->).
  erewrite mapM_ext_in; [done | exact Hm |].
  intros [k v'] mm Hin Hp. simpl in *.
  apply fmap_Some in Hp as (j0 & Hj0 & ->).
  rewrite (IH v' j0); [done | | done].
  intros l' ->. pose proof (Hfwd _ _ _ _ Ho Hin). specialize (Hv l eq_refl).
  lia.
Qed.

Lemma reifies_object h l props members :
  h !! l = Some (HObject props) ->
  Forall2 (fun p m => p.1 = m.1 /\ reifies h p.2 m.2) props members ->
  reifies h (HRef l) (JObject members).
Proof.
  intros Hl Hall.
  assert (exists fuel,
            Forall2 (fun p m => pair p.1 <$> reify fuel h p.2 = Some m)
              props members) as [fuel Hfuel].
  { clear Hl.
    induction Hall as [|[k v] [k' j] props members [Hk [f Hf]] _ [fuel IH]].
    - exists 0%nat. constructor.
    - simpl in Hk. subst k'. exists (Nat.max f fuel). constructor.
      + simpl. by rewrite (reify_mono f _ _ _ _ Hf) by lia.
      + eapply Forall2_impl; [exact IH |]. intros p m Hp. simpl in *.
        apply fmap_Some in Hp as (j0 & Hj0 & ->).
        by rewrite (reify_mono fuel _ _ _ _ Hj0) by lia. }
  exists (S fuel). simpl. rewrite Hl.
  apply mapM_Some in Hfuel. by rewrite Hfuel.
Qed.

Lemma forest_head d nodes members b :
  forest d nodes members -> head nodes = Some b -> FlatNode.depth b = d.
Proof. by destruct 1; intros [= <-]. Qed.

Lemma pop_while_extra extra top below d :
  Forall (fun f => d <= fdepth f) extra ->
  fdepth top < d ->
  pop_while (extra ++ top :: below) d = top :: below.
Proof.
  intros Hextra Htop. induction Hextra as [|f extra Hf _ IH].
  - by apply pop_while_keep.
  - rewrite <- app_comm_cons.
    destruct (extra ++ top :: below) as [|g rest] eqn:Hrest.
    + by destruct extra.
    + rewrite pop_while_cons.
      by destruct (Z.leb_spec d (fdepth f)); [| lia].
Qed.

Lemma next_not_deeper d rest members after a :
  forest d rest members ->
  (forall a, after = Some a -> FlatNode.depth a <= d) ->
  next_of rest after = Some a -> FlatNode.depth a <= d.
Proof.
  intros Hrest Hafter. destruct rest as [|b rest]; simpl.
  - apply Hafter.
  - intros [= <-]. by rewrite (forest_head _ _ _ b Hrest).
Qed.
Lemma nest_step_state st node next top below props :
  nest_inv st ->
  pop_while (stack st) (FlatNode.depth node) = top :: below ->
  store st !! obj top = Some (HObject props) ->
  exists st',
    nest_step node next st = Some st' /\ nest_inv st'
    /\ st' = (if isParent node next
              then container_state st (obj top) props node
              else leaf_state st (obj top) props node).
Proof.
  intros Hinv Hpop Hp.
  destruct (nest_step_inv node next st Hinv) as (st' & Hstep & Hinv').
  exists st'. split; [done |]. split; [done |].
  rewrite (nest_step_eq st node next top below props Hpop Hp) in Hstep.
  injection Hstep as <-. unfold container_state, leaf_state. rewrite Hpop.
  by destruct (isParent node next).
Qed.

Lemma forest_run d nodes members :
  forest d nodes members ->
  forall st l dl below extra props after,
    nest_inv st ->
    stack st = extra ++ Frame l dl :: below ->
    Forall (fun f => d <= fdepth f) extra ->
    dl < d ->
    store st !! l = Some (HObject props) ->
    (forall k, k ∈ members.*1 -> k ∉ props.*1) ->
    (forall a, after = Some a -> FlatNode.depth a <= d) ->
    exists st' extra' new,
      nest_run nodes after st = Some st'
      /\ nest_inv st'
      /\ stack st' = extra' ++ Frame l dl :: below
      /\ Forall (fun f => d <= fdepth f) extra'
      /\ store st' !! l = Some (HObject (props ++ new))
      /\ Forall2 (fun p m => p.1 = m.1 /\ reifies (store st') p.2 m.2)
           new members
      /\ Forall (fun p => forall l', p.2 = HRef l' ->
                                     (length (store st) <= l')%nat) new
      /\ (length (store st) <= length (store st'))%nat
      /\ (forall i, (i < length (store st))%nat -> i <> l ->
                    store st' !! i = store st !! i).
Proof.
  induction 1 as [d | d node rest members Hd Hkey Hrest IH
                  | d d' node sub rest children members Hd Hdd' Hsub Hkey
                      Hchildren IHsub Hrest IHrest];
    intros st l dl below extra props after Hinv Hstack Hextra Hdl Hl Hfresh
      Hafter.
  - exists st, extra, []. rewrite app_nil_r. 
    split; [done |]. split; [done |]. split; [done |]. split; [done |].
    split; [done |]. split; [constructor |]. split; [constructor |].
    split; [lia | done].
  - assert (pop_while (stack st) (FlatNode.depth node) = Frame l dl :: below)
      as Hpop by (rewrite Hstack, Hd; by apply pop_while_extra).
    destruct (nest_step_state st node (next_of rest after) _ _ _ Hinv Hpop Hl)
      as (st1 & Hstep & Hinv1 & Hst1).
    assert (isParent node (next_of rest after) = false) as Hleaf.
    { unfold isParent. destruct (next_of rest after) as [a |] eqn:Hnext; [| done].
      pose proof (next_not_deeper _ _ _ _ _ Hrest Hafter Hnext).
      by destruct (Z.ltb_spec (FlatNode.depth node) (FlatNode.depth a)); [lia |]. }
    rewrite Hleaf in Hst1. unfold leaf_state in Hst1. cbn [obj] in Hst1.
    rewrite assign_fresh in Hst1
      by (apply Hfresh; rewrite fmap_cons; apply elem_of_cons; by left).
    assert (l < length (store st))%nat as Hlt by by eapply lookup_lt_Some.
    destruct (IH st1 l dl below [] (props ++ [(FlatNode.key node,
                                               HLit (FlatNode.value node))])
                after) as (st' & extra' & new & Hrun & Hinv' & Hstack' & Hextra'
                           & Hl' & Hnew & Hrefs & Hlen & Hframe).
    + done.
    + subst st1. cbn [stack]. by rewrite Hpop.
    + constructor.
    + done.
    + subst st1. cbn [store]. by apply list_lookup_insert_eq.
    + intros k Hk. rewrite fmap_app, elem_of_app. intros [Hin | Hin].
      * apply (Hfresh k); [| done]. rewrite fmap_cons, elem_of_cons. by right.
      * apply list_elem_of_singleton in Hin. simpl in Hin. by subst k.
    + done.
    + exists st', extra', ((FlatNode.key node, HLit (FlatNode.value node)) :: new).
      assert (length (store st1) = length (store st)) as Hlen1
        by (subst st1; cbn [store]; apply length_insert).
      split; [simpl; by rewrite Hstep |]. split; [done |]. split; [done |].
      split; [done |]. split; [by rewrite Hl', <- app_assoc |].
      split; [constructor; [| done]; split; [done |]; exists 0%nat; done |].
      split; [constructor; [done |]; by rewrite <- Hlen1 |].
      split; [lia |].
      intros i Hi Hne. rewrite Hframe by (done || lia).
      subst st1. cbn [store]. by apply list_lookup_insert_ne.
  - assert (pop_while (stack st) (FlatNode.depth node) = Frame l dl :: below)
      as Hpop by (rewrite Hstack, Hd; by apply pop_while_extra).
    destruct (nest_step_state st node (next_of (sub ++ rest) after) _ _ _
                Hinv Hpop Hl) as (st1 & Hstep & Hinv1 & Hst1).
    assert (isParent node (next_of (sub ++ rest) after) = true) as Hparent.
    { destruct sub as [|b sub]; [done |]. simpl.
      rewrite (forest_head _ _ _ b Hchildren eq_refl).
      by destruct (Z.ltb_spec (FlatNode.depth node) d'); [| lia]. }
    rewrite Hparent in Hst1. unfold container_state in Hst1.
    rewrite Hpop in Hst1. cbn [obj] in Hst1.
    rewrite assign_fresh in Hst1
      by (apply Hfresh; rewrite fmap_cons; apply elem_of_cons; by left).
    assert (l < length (store st))%nat as Hlt by by eapply lookup_lt_Some.
    assert (length (store st1) = S (length (store st))) as Hlen1.
    { subst st1. cbn [store]. rewrite length_insert, length_app. simpl. lia. }
    assert (store st1 !! length (store st) = Some (HObject [])) as Hnew1.
    { subst st1. cbn [store]. rewrite list_lookup_insert_ne by lia.
      rewrite lookup_app_r by lia. by rewrite Nat.sub_diag. }
    assert (store st1 !! l
            = Some (HObject (props ++ [(FlatNode.key node,
                                         HRef (length (store st)))]))) as Hl1.
    { subst st1. cbn [store]. apply list_lookup_insert_eq.
      rewrite length_app. lia. }
    destruct (IHsub st1 (length (store st)) d (Frame l dl :: below) [] []
                (next_of rest after))
      as (st2 & extra2 & news & Hrun2 & Hinv2 & Hstack2 & Hextra2 & Hlk2
          & Hnews & Hrefs2 & Hlen2 & Hframe2).
    { done. }
    { subst st1. cbn [stack]. by rewrite Hd. }
    { constructor. }
    { done. }
    { done. }
    { intros k _. apply not_elem_of_nil. }
    { intros a Ha. pose proof (next_not_deeper _ _ _ _ _ Hrest Hafter Ha). lia. }
    assert (store st2 !! l
            = Some (HObject (props ++ [(FlatNode.key node,
                                         HRef (length (store st)))]))) as Hl2.
    { rewrite Hframe2 by lia. done. }
    pose proof (reifies_object _ _ _ _ Hlk2 Hnews) as [f Hf].
    destruct (IHrest st2 l dl below
                (extra2 ++ [Frame (length (store st)) d])
                (props ++ [(FlatNode.key node, HRef (length (store st)))])
                after)
      as (st' & extra' & new & Hrun & Hinv' & Hstack' & Hextra' & Hl' & Hnew
          & Hrefs & Hlen & Hframe).
    { done. }
    { by rewrite Hstack2, <- app_assoc. }
    { apply Forall_app. split; [| by repeat constructor].
      eapply Forall_impl; [exact Hextra2 |]. simpl. lia. }
    { done. }
    { done. }
    { intros k Hk. rewrite fmap_app, elem_of_app. intros [Hin | Hin].
      - apply (Hfresh k); [| done]. rewrite fmap_cons, elem_of_cons. by right.
      - apply list_elem_of_singleton in Hin. simpl in Hin. by subst k. }
    { done. }
    exists st', extra', ((FlatNode.key node, HRef (length (store st))) :: new).
    split.
    { simpl. rewrite Hstep. simpl. rewrite nest_run_app, Hrun2. done. }
    split; [done |]. split; [done |]. split; [done |].
    split; [by rewrite Hl', <- app_assoc |].
    split.
    { constructor; [| done]. split; [done |]. exists f. simpl.
      destruct Hinv2 as [_ _ Hobjs2 Hfwd2].
      eapply (reify_agree f (store st2) (store st') (length (store st)));
        [done | done | | | done].
      - intros i Hi1 Hi2. apply Hframe; [done | lia].
      - by intros l' [= <-]. }
    split.
    { constructor; [by intros l' [= <-] |].
      eapply Forall_impl; [exact Hrefs |]. intros p Hp l' Hl''.
      specialize (Hp l' Hl''). lia. }
    split; [lia |].
    intros i Hi Hne. rewrite Hframe by (done || lia).
    rewrite Hframe2 by lia. subst st1. cbn [store].
    rewrite list_lookup_insert_ne by done. by apply lookup_app_l.
Qed.

Lemma nestJson_rebuilds d nodes members :
  -1 < d -> forest d nodes members ->
  nestJson nodes = Some (JObject members).
Proof.
  intros Hd Hforest. unfold nestJson. case_bool_decide as Hlen.
  - destruct nodes; [| done]. by inversion Hforest.
  - rewrite nest_loop_run.
    destruct (forest_run d nodes members Hforest nest_init root (-1) [] [] []
                None)
      as (st & extra & new & Hrun & Hinv & Hstack & _ & Hl & Hnew & _);
      [apply nest_inv_init | done | constructor | done | done
       | intros k _; apply not_elem_of_nil | done |].
    rewrite Hrun. simpl.
    destruct (reifies_object _ _ _ _ Hl Hnew) as [f Hf].
    destruct Hinv as [_ _ Hobjs Hfwd].
    destruct (reify_object (store st) (length (store st)) root Hobjs Hfwd)
      as [members' Hm]; [by eapply lookup_lt_Some | unfold root; lia |].
    rewrite Hm.
    pose proof (reify_mono _ (Nat.max f (length (store st))) _ _ _ Hf
                  (Nat.le_max_l _ _)) as H1.
    pose proof (reify_mono _ (Nat.max f (length (store st))) _ _ _ Hm
                  (Nat.le_max_r _ _)) as H2.
    congruence.
Qed.



(** ** The way through flattenJson and nestJson *)

Lemma uint_units_inj d1 d2 : uint_units d1 = uint_units d2 -> d1 = d2.
Proof.
  revert d2. induction d1 as [| d1 IH | d1 IH | d1 IH | d1 IH | d1 IH | d1 IH
                              | d1 IH | d1 IH | d1 IH | d1 IH];
    intros [| d2 | d2 | d2 | d2 | d2 | d2 | d2 | d2 | d2 | d2] Hd;
    simpl in Hd; try discriminate Hd; try done;
    injection Hd as Hd; by rewrite (IH d2 Hd).
Qed.

Lemma index_key_inj i j : index_key i = index_key j -> i = j.
Proof.
  unfold index_key. intros Hij. apply app_inv_head in Hij.
  apply app_inv_tail in Hij. apply uint_units_inj in Hij.
  by apply DecimalNat.Unsigned.to_uint_inj.
Qed.

Lemma degrade_members_keys members : (degrade_members members).*1 = members.*1.
Proof.
  unfold degrade_members. rewrite <- list_fmap_compose.
  by apply list_fmap_ext.
Qed.

Lemma degrade_items_keys items index k :
  k ∈ (degrade_items items index).*1 ->
  exists j, (index <= j)%nat /\ k = index_key j.
Proof.
  revert index. induction items as [|item items IH]; intros index; simpl.
  - by intros ?%elem_of_nil.
  - intros [-> | Hin]%elem_of_cons; [by exists index |].
    destruct (IH _ Hin) as (j & Hj & ->). exists j. split; [lia | done].
Qed.

Lemma degrade_object m members :
  degrade (JObject (m :: members)) = JObject (degrade_members (m :: members)).
Proof.
  destruct m as [k v]. cbn [degrade]. unfold degrade_members.
  rewrite fmap_cons. do 2 f_equal.
  match goal with
  | |- ?f _ = _ =>
      enough (forall l, f l = (fun m => (m.1, degrade m.2)) <$> l) as H
        by apply H
  end.
  intros l. induction l as [|[k' v'] l IH]; [done |].
  rewrite fmap_cons, <- IH. done.
Qed.

Lemma degrade_array item items :
  degrade (JArray (item :: items)) = JObject (degrade_items (item :: items) 0).
Proof. reflexivity. Qed.

Lemma forest_app d rows1 rows2 members1 members2 :
  forest d rows1 members1 -> forest d rows2 members2 ->
  (forall k, k ∈ members1.*1 -> k ∉ members2.*1) ->
  forest d (rows1 ++ rows2) (members1 ++ members2).
Proof.
  intros H1 H2. induction H1 as [d | d node rest members Hd Hkey Hrest IH
                  | d d' node sub rest children members Hd Hdd' Hsub Hkey
                      Hchildren _ Hrest IH]; intros Hdisj.
  - done.
  - simpl. apply forest_leaf; [done | |].
    + rewrite fmap_app, elem_of_app. intros [Hin | Hin]; [done |].
      apply (Hdisj (FlatNode.key node)); [| done].
      rewrite fmap_cons. apply elem_of_cons. by left.
    + apply IH; [done |]. intros k Hk. apply Hdisj.
      rewrite fmap_cons. apply elem_of_cons. by right.
  - simpl. rewrite <- app_assoc. eapply forest_node; try done.
    + rewrite fmap_app, elem_of_app. intros [Hin | Hin]; [done |].
      apply (Hdisj (FlatNode.key node)); [| done].
      rewrite fmap_cons. apply elem_of_cons. by left.
    + apply IH; [done |]. intros k Hk. apply Hdisj.
      rewrite fmap_cons. apply elem_of_cons. by right.
Qed.

Lemma distinct_keys_object members :
  distinct_keys (JObject members) = true
  <-> NoDup members.*1 /\ Forall (fun m => distinct_keys m.2 = true) members.
Proof.
  cbn [distinct_keys]. rewrite andb_true_iff, bool_decide_eq_true.
  apply and_iff_compat_l. clear.
  induction members as [|[k v] members IH].
  - split; [constructor | done].
  - rewrite Forall_cons, andb_true_iff, IH. done.
Qed.

Lemma distinct_keys_array items :
  distinct_keys (JArray items) = true
  <-> Forall (fun item => distinct_keys item = true) items.
Proof.
  cbn [distinct_keys]. induction items as [|item items IH].
  - split; [constructor | done].
  - rewrite Forall_cons, andb_true_iff, IH. done.
Qed.
Lemma leaf_forest d node :
  FlatNode.depth node = d ->
  forest d [node] [(FlatNode.key node, FlatNode.value node)].
Proof.
  intros Hd. apply forest_leaf; [done | apply not_elem_of_nil | constructor].
Qed.

Lemma container_forest d node sub children :
  FlatNode.depth node = d -> sub <> [] ->
  forest (d + 1) sub children ->
  forest d (node :: sub) [(FlatNode.key node, JObject children)].
Proof.
  intros Hd Hsub Hchildren. rewrite <- (app_nil_r sub).
  apply (forest_node d (d + 1)); try done; [lia | apply not_elem_of_nil |].
  constructor.
Qed.

Lemma flatten_nonempty_object rnd m members depth n :
  (flattenJson rnd (JObject (m :: members)) depth n).1 <> [].
Proof.
  rewrite flattenJson_object. destruct m as [k v]. cbn [forEach_members].
  destruct (member_rows rnd depth k v n) as [rows n'] eqn:Hrows.
  rewrite forEach_members_nodes. cbn [fst app].
  unfold member_rows, generateId in Hrows.
  destruct (typeof_object v && negb (is_null v)).
  - destruct (flattenJson rnd v (depth + 1) (S n)). by injection Hrows as <- _.
  - by injection Hrows as <- _.
Qed.

Lemma flatten_nonempty_array rnd item items depth n :
  (flattenJson rnd (JArray (item :: items)) depth n).1 <> [].
Proof.
  rewrite flattenJson_array. cbn [forEach_items].
  destruct (element_rows rnd depth 0 item n) as [rows n'] eqn:Hrows.
  rewrite forEach_items_nodes. cbn [fst app].
  unfold element_rows, generateId in Hrows.
  destruct (typeof_object item).
  - destruct (flattenJson rnd item (depth + 1) (S n)).
    by injection Hrows as <- _.
  - by injection Hrows as <- _.
Qed.

(** A container row and the rows of the child [v], when [v] is an
    object or an array. *)
Lemma child_forest rnd d k v n :
  is_container v = true ->
  (forall d n, forest d (flattenJson rnd v d n).1 (entries v)) ->
  forest d
    (row (rnd n) k empty_marker d :: (flattenJson rnd v (d + 1) (S n)).1)
    [(k, degrade v)].
Proof.
  intros Hc Hv. specialize (Hv (d + 1) (S n)).
  destruct v as [| | | | [|item items] | [|m members]]; try discriminate Hc.
  - apply (leaf_forest d (row (rnd n) k empty_marker d)). done.
  - rewrite degrade_array.
    apply (container_forest d (row (rnd n) k empty_marker d)); [done | | done].
    apply flatten_nonempty_array.
  - apply (leaf_forest d (row (rnd n) k empty_marker d)). done.
  - rewrite degrade_object.
    apply (container_forest d (row (rnd n) k empty_marker d)); [done | | done].
    apply flatten_nonempty_object.
Qed.

Lemma member_forest rnd d k v n :
  (forall d n, forest d (flattenJson rnd v d n).1 (entries v)) ->
  forest d (member_rows rnd d k v n).1 [(k, degrade v)].
Proof.
  intros Hv. unfold member_rows, generateId.
  destruct (is_container v) eqn:Hc.
  - replace (typeof_object v && negb (is_null v)) with true by by destruct v.
    pose proof (child_forest rnd d k v n Hc Hv) as Hf.
    by destruct (flattenJson rnd v (d + 1) (S n)).
  - replace (typeof_object v && negb (is_null v)) with false by by destruct v.
    replace (degrade v) with v by by destruct v.
    apply (leaf_forest d (row (rnd n) k v d)). done.
Qed.

Lemma element_forest rnd d index item n :
  (forall d n, forest d (flattenJson rnd item d n).1 (entries item)) ->
  forest d (element_rows rnd d index item n).1
    [(index_key index, degrade_elem item)].
Proof.
  intros Hv. unfold element_rows, generateId.
  destruct (is_container item) eqn:Hc.
  - replace (typeof_object item) with true by by destruct item.
    replace (degrade_elem item) with (degrade item) by by destruct item.
    pose proof (child_forest rnd d (index_key index) item n Hc Hv) as Hf.
    by destruct (flattenJson rnd item (d + 1) (S n)).
  - destruct item; try discriminate Hc; cbn [typeof_object fst];
      by apply (leaf_forest d (row (rnd n) (index_key index) _ d)).
Qed.

Lemma flatten_forest rnd v :
  distinct_keys v = true ->
  forall d n, forest d (flattenJson rnd v d n).1 (entries v).
Proof.
  induction v as [| b | x | s | items IH | members IH] using json_induction;
    intros Hdist d n; try constructor.
  - rewrite flattenJson_array. cbn [entries].
    apply distinct_keys_array in Hdist. generalize 0%nat. revert n.
    induction IH as [|item items Hitem _ IHitems]; intros n index;
      [constructor |].
    apply Forall_cons in Hdist as [Hd Hdist].
    cbn [forEach_items degrade_items].
    pose proof (element_forest rnd d index item n (Hitem Hd)) as Hrows.
    destruct (element_rows rnd d index item n) as [rows m].
    rewrite forEach_items_nodes. cbn [fst snd app] in *.
    apply (forest_app d rows _ [_]); [done | by apply IHitems |].
    intros k Hk Hin. apply list_elem_of_singleton in Hk. simpl in Hk. subst k.
    apply degrade_items_keys in Hin as (j & Hj & Hij).
    apply index_key_inj in Hij. lia.
  - rewrite flattenJson_object. cbn [entries].
    apply distinct_keys_object in Hdist as [Hnd Hdist]. revert n.
    induction IH as [|[k v] members Hv _ IHmembers]; intros n;
      [constructor |].
    apply Forall_cons in Hdist as [Hd Hdist].
    rewrite fmap_cons in Hnd. apply NoDup_cons in Hnd as [Hk Hnd].
    cbn [forEach_members]. unfold degrade_members. rewrite fmap_cons.
    pose proof (member_forest rnd d k v n (Hv Hd)) as Hrows.
    destruct (member_rows rnd d k v n) as [rows m].
    rewrite forEach_members_nodes. cbn [fst snd app] in *.
    apply (forest_app d rows _ [_]); [done | by apply IHmembers |].
    intros k' Hk' Hin. apply list_elem_of_singleton in Hk'. simpl in Hk'.
    subst k'. fold (degrade_members members) in Hin.
    by rewrite degrade_members_keys in Hin.
Qed.

Lemma nest_flatten_entries rnd v n :
  distinct_keys v = true ->
  nestJson (flattenJson rnd v 0 n).1 = Some (JObject (entries v)).
Proof.
  intros Hdist. apply (nestJson_rebuilds 0); [done |]. by apply flatten_forest.
Qed.



Lemma plain_cons m members :
  plain (JObject (m :: members)) = true
  <-> plain m.2 = true /\ (members = [] \/ plain (JObject members) = true).
Proof.
  destruct m as [k v], members as [|[k' v'] members]; cbn [plain snd];
    rewrite ?andb_true_iff.
  - split; [intros [Hv _]; split; [done | by left] | by intros [Hv _]].
  - split; [intros (Hv & Hv' & Hall); split; [done | by right] |].
    intros [Hv [Hnil | [Hv' Hall]]]; [discriminate Hnil | done].
Qed.

Lemma plain_object members :
  plain (JObject members) = true
  <-> members <> [] /\ Forall (fun m => plain m.2 = true) members.
Proof.
  induction members as [|m members IH]; [by split; [| intros [? _]] |].
  rewrite plain_cons, Forall_cons. split.
  - intros [Hm Hrest]. split; [done |]. split; [done |].
    destruct Hrest as [-> | Hp]; [constructor | by apply IH].
  - intros [_ [Hm Hall]]. split; [done |].
    destruct members as [|m' members]; [by left | right]. by apply IH.
Qed.

Lemma degrade_members_id members :
  Forall (fun m => degrade m.2 = m.2) members ->
  degrade_members members = members.
Proof.
  unfold degrade_members. induction 1 as [|[k v] l Hv _ IH]; [done |].
  rewrite fmap_cons, IH. simpl in *. by rewrite Hv.
Qed.

Lemma degrade_plain v : plain v = true -> degrade v = v.
Proof.
  induction v as [| b | x | s | items IH | members IH] using json_induction;
    try done.
  intros [Hne Hall]%plain_object.
  destruct members as [|m members]; [done |].
  rewrite degrade_object. f_equal. apply degrade_members_id.
  apply Forall_forall. intros p Hp.
  apply (proj1 (Forall_forall _ _) IH p Hp).
  by apply (proj1 (Forall_forall _ _) Hall p Hp).
Qed.



(** ** Rows of one level, and rows with children *)

Lemma lit_props_put members k v :
  lit_props (put members k v) = assign (lit_props members) k (HLit v).
Proof.
  unfold lit_props. induction members as [|[k' v'] members IH]; [done |].
  simpl. case_decide; [done |]. rewrite fmap_cons. simpl. by rewrite IH.
Qed.

Lemma nest_loop_level d nodes props :
  -1 < d -> Forall (fun node => FlatNode.depth node = d) nodes ->
  nest_loop nodes (NState [HObject props] [Frame root (-1)])
  = Some (NState
            [HObject (foldl (fun ps node =>
                               assign ps (FlatNode.key node)
                                 (HLit (FlatNode.value node))) props nodes)]
            [Frame root (-1)]).
Proof.
  intros Hd Hall. revert props.
  induction Hall as [|node rest Hnode Hrest IH]; intros props; [done |].
  cbn [nest_loop foldl].
  replace (nest_step node (head rest)
             (NState [HObject props] [Frame root (-1)]))
    with (Some (NState [HObject (assign props (FlatNode.key node)
                                   (HLit (FlatNode.value node)))]
                  [Frame root (-1)])).
  - simpl. apply IH.
  - unfold nest_step. cbn [stack pop_while head mbind option_bind].
    replace (isParent node (head rest)) with false; [done |].
    unfold isParent. destruct Hrest as [|next rest Hnext _]; [done |].
    simpl. rewrite Hnode, Hnext. symmetry. apply Z.ltb_irrefl.
Qed.

Lemma foldl_lit_props nodes members :
  foldl (fun ps node => assign ps (FlatNode.key node)
                          (HLit (FlatNode.value node)))
    (lit_props members) nodes
  = lit_props (foldl (fun ms node => put ms (FlatNode.key node)
                                       (FlatNode.value node)) members nodes).
Proof.
  revert members. induction nodes as [|node nodes IH]; intros members;
    [done |].
  simpl. by rewrite <- lit_props_put, IH.
Qed.

Lemma nestJson_level d nodes :
  -1 < d -> Forall (fun node => FlatNode.depth node = d) nodes ->
  nestJson nodes = Some (JObject (written nodes)).
Proof.
  intros Hd Hall. unfold nestJson. case_bool_decide as Hlen.
  - by destruct nodes.
  - unfold nest_init. rewrite (nest_loop_level d) by done.
    cbn [mbind option_bind store length].
    change (@nil (jsstring * hval)) with (lit_props []).
    rewrite foldl_lit_props.
    erewrite reify_unfold by reflexivity. by rewrite reify_lit_props.
Qed.

Lemma put_keys members k v :
  (put members k v).*1 = if decide (k ∈ members.*1) then members.*1
                         else members.*1 ++ [k].
Proof.
  induction members as [|[k' v'] members IH]; [done |].
  simpl. destruct (decide (k' = k)) as [-> | Hne].
  - rewrite decide_True by (apply elem_of_cons; by left). done.
  - rewrite fmap_cons, IH. simpl.
    destruct (decide (k ∈ members.*1)) as [Hin | Hin].
    + rewrite decide_True by (apply elem_of_cons; by right). done.
    + rewrite decide_False; [done |].
      intros [? | ?]%elem_of_cons; [by subst | done].
Qed.

Lemma put_NoDup members k v :
  NoDup members.*1 -> NoDup (put members k v).*1.
Proof.
  intros Hnd. rewrite put_keys. case_decide as Hin; [done |].
  apply NoDup_app. split; [done |]. split; [| apply NoDup_singleton].
  intros x Hx Hx'. apply list_elem_of_singleton in Hx'. by subst.
Qed.

Lemma elem_of_put members k v k' v' :
  NoDup members.*1 ->
  (k', v') ∈ put members k v
  <-> (k' = k /\ v' = v) \/ (k' <> k /\ (k', v') ∈ members).
Proof.
  induction members as [|[k0 v0] members IH]; intros Hnd; simpl.
  - rewrite list_elem_of_singleton. split.
    + intros [= -> ->]. by left.
    + intros [[-> ->] | [_ Hin]]; [done | by apply elem_of_nil in Hin].
  - rewrite fmap_cons in Hnd. apply NoDup_cons in Hnd as [Hk0 Hnd].
    destruct (decide (k0 = k)) as [-> | Hne]; rewrite !elem_of_cons.
    + split.
      * intros [[= -> ->] | Hin]; [by left |]. right.
        split; [| by right]. intros ->. apply Hk0.
        by apply (list_elem_of_fmap_2 fst) in Hin.
      * intros [[-> ->] | [Hne [[= -> ->] | Hin]]]; [by left | done | by right].
    + rewrite (IH Hnd). split.
      * intros [[= -> ->] | [[-> ->] | [Hk Hin]]].
        -- right. split; [done | by left].
        -- by left.
        -- right. split; [done | by right].
      * intros [[-> ->] | [Hk [[= -> ->] | Hin]]].
        -- right. by left.
        -- by left.
        -- right. right. done.
Qed.

Lemma written_snoc nodes node :
  written (nodes ++ [node])
  = put (written nodes) (FlatNode.key node) (FlatNode.value node).
Proof. unfold written. by rewrite foldl_app. Qed.

Lemma written_NoDup nodes : NoDup (written nodes).*1.
Proof.
  induction nodes as [|node nodes IH] using rev_ind; [constructor |].
  rewrite written_snoc. by apply put_NoDup.
Qed.

Lemma written_last nodes k v :
  (k, v) ∈ written nodes
  <-> exists pre node post,
        nodes = pre ++ node :: post
        /\ FlatNode.key node = k /\ FlatNode.value node = v
        /\ k ∉ FlatNode.key <$> post.
Proof.
  induction nodes as [|node nodes IH] using rev_ind.
  - split; [by intros ?%elem_of_nil |].
    intros (pre & n0 & post & Hnodes & _). by destruct pre.
  - rewrite written_snoc, elem_of_put by apply written_NoDup.
    rewrite IH. split.
    + intros [[-> ->] | [Hk (pre & n0 & post & -> & Hkey & Hval & Hpost)]].
      * exists nodes, node, []. split; [done |]. split; [done |].
        split; [done | apply not_elem_of_nil].
      * exists pre, n0, (post ++ [node]). rewrite <- app_assoc.
        split; [done |]. split; [done |]. split; [done |].
        rewrite fmap_app, elem_of_app. intros [Hin | Hin]; [done |].
        apply list_elem_of_singleton in Hin. simpl in Hin. congruence.
    + intros (pre & n0 & post & Hnodes & Hkey & Hval & Hpost).
      destruct post as [|x post _] using rev_ind.
      * apply app_inj_tail in Hnodes as [-> ->]. by left.
      * rewrite app_comm_cons, app_assoc in Hnodes.
        apply app_inj_tail in Hnodes as [-> ->].
        rewrite fmap_app, elem_of_app in Hpost. right. split.
        -- intros ->. apply Hpost. right. by apply list_elem_of_singleton.
        -- exists pre, n0, post. split; [done |]. split; [done |].
           split; [done |]. intros Hin. apply Hpost. by left.
Qed.



Lemma nest_step_relevant a a' next next' st :
  FlatNode.key a = FlatNode.key a' ->
  FlatNode.depth a = FlatNode.depth a' ->
  FlatNode.depth <$> next = FlatNode.depth <$> next' ->
  (isParent a next = false -> FlatNode.value a = FlatNode.value a') ->
  nest_step a next st = nest_step a' next' st.
Proof.
  intros Hk Hd Hnext Hv.
  assert (isParent a' next' = isParent a next) as Hp.
  { unfold isParent. rewrite Hd.
    destruct next, next'; simpl in Hnext; try discriminate; [| done].
    by injection Hnext as ->. }
  unfold nest_step. rewrite Hp, Hk, Hd.
  destruct (isParent a next); [done |]. by rewrite Hv.
Qed.

Lemma nest_loop_relevant nodes nodes' st :
  Forall2 (fun a a' => FlatNode.key a = FlatNode.key a'
                       /\ FlatNode.depth a = FlatNode.depth a') nodes nodes' ->
  (forall i a a',
     nodes !! i = Some a -> nodes' !! i = Some a' ->
     isParent a (nodes !! S i) = false ->
     FlatNode.value a = FlatNode.value a') ->
  nest_loop nodes st = nest_loop nodes' st.
Proof.
  intros Hall. revert st.
  induction Hall as [|a a' rest rest' [Hk Hd] Hrest IH]; intros st Hval;
    [done |].
  cbn [nest_loop].
  rewrite (nest_step_relevant a a' (head rest) (head rest') st Hk Hd).
  - destruct (nest_step a' (head rest') st); [| done]. simpl.
    apply IH. intros i b b' Hb Hb'. by apply (Hval (S i)).
  - destruct Hrest as [|b b' ? ? [_ Hdb] _]; [done |]. simpl. by rewrite Hdb.
  - intros Hp. apply (Hval 0%nat); [done | done |].
    by destruct rest.
Qed.

Lemma edit_row_value_shape doc id v node :
  FlatNode.key node = FlatNode.key (edit_row doc id v value node)
  /\ FlatNode.depth node = FlatNode.depth (edit_row doc id v value node).
Proof. unfold edit_row. by case_bool_decide. Qed.

(** X18. Children win over a value.  A value edit of rows that each
    have a deeper row right after them changes nothing in the JSON
    that [nestJson] builds. *)
Theorem value_edit_of_container (doc : DocumentData) (id v : jsstring) :
  (forall i node,
     DocumentData.flatNodes doc !! i = Some node ->
     FlatNode.id node = id ->
     isParent node (DocumentData.flatNodes doc !! S i) = true) ->
  nestJson (handleRowChange doc id v value)
  = nestJson (DocumentData.flatNodes doc).
Proof.
  intros Hparents. unfold nestJson, handleRowChange.
  rewrite length_fmap. case_bool_decide; [done |].
  rewrite (nest_loop_relevant (DocumentData.flatNodes doc)
             (edit_row doc id v value <$> DocumentData.flatNodes doc));
    [done | |].
  - apply Forall2_fmap_r, Forall_Forall2_diag, Forall_forall.
    intros node _. apply edit_row_value_shape.
  - intros i a a' Ha Ha' Hp. rewrite list_lookup_fmap, Ha in Ha'.
    injection Ha' as <-. unfold edit_row. case_bool_decide as Hid; [done |].
    rewrite (Hparents i a Ha Hid) in Hp.
    discriminate Hp.
Qed.

Lemma value_edit_of_container_witness :
  nestJson (handleRowChange sample_doc (js "r1") (js "typed over") value)
  = nestJson (DocumentData.flatNodes sample_doc).
Proof.
  apply value_edit_of_container. intros [|[|[|i]]] node Hi Hid;
    simpl in Hi; try discriminate Hi; injection Hi as <-;
    try discriminate Hid. reflexivity.
Defined.

(** ** Source snippets *)

Lemma first_occurrence_Some source pat i :
  first_occurrence source pat = Some i ->
  (i <= length source)%nat /\ exists r, drop i source = pat ++ r.
Proof.
  revert i. induction source as [|c source IH]; intros i; simpl.
  - destruct (starts_with pat []) eqn:Hs; [| done]. intros [= <-].
    split; [done |]. by apply starts_with_spec in Hs.
  - destruct (starts_with pat (c :: source)) eqn:Hs.
    + intros [= <-]. split; [lia |]. by apply starts_with_spec in Hs.
    + intros (i' & Hi' & ->)%fmap_Some. destruct (IH i' Hi') as [Hle Hr].
      split; [lia | done].
Qed.

Lemma first_occurrence_includes source pat :
  is_Some (first_occurrence source pat) <-> includes source pat = true.
Proof.
  induction source as [|c source IH]; simpl.
  - destruct (starts_with pat []); simpl; [| by split; [intros [? ?] |]].
    split; [done | by eexists].
  - destruct (starts_with pat (c :: source)); simpl; [split; [done | by eexists] |].
    rewrite <- IH. rewrite fmap_is_Some. done.
Qed.

Lemma indexOf_absent source pat :
  indexOf source pat = -1 <-> includes source pat = false.
Proof.
  unfold indexOf. pose proof (first_occurrence_includes source pat) as Hinc.
  destruct (first_occurrence source pat) as [i |].
  - split; [lia |]. intros Hf. destruct Hinc as [Hinc _].
    rewrite Hinc in Hf by by eexists. discriminate Hf.
  - split; [| done]. intros _. destruct (includes source pat); [| done].
    destruct Hinc as [_ Hinc]. by destruct Hinc.
Qed.

Lemma clamp_of_nat (s : jsstring) (a : nat) :
  (a <= length s)%nat -> clamp s (Z.of_nat a) = a.
Proof. unfold clamp. lia. Qed.

Lemma substring_take_drop (s : jsstring) (a b : nat) :
  (a <= b)%nat -> (b <= length s)%nat ->
  substring s (Z.of_nat a) (Z.of_nat b) = take (b - a) (drop a s).
Proof.
  intros Hab Hb. unfold substring.
  rewrite !clamp_of_nat by lia.
  by rewrite Nat.min_l, Nat.max_r by lia.
Qed.

Lemma snippet_geometry ctx source found i r :
  0 <= ctx -> (i <= length source)%nat -> drop i source = found ++ r ->
  exists before after,
    let pre := substring source (Z.max 0 (Z.of_nat i - ctx)) (Z.of_nat i) in
    let post := substring source (Z.of_nat i + Z.of_nat (length found))
                  (Z.min (Z.of_nat (length source))
                     (Z.of_nat i + Z.of_nat (length found) + ctx)) in
    substring source (Z.of_nat i) (Z.of_nat i + Z.of_nat (length found))
    = found
    /\ source = before ++ pre ++ found ++ post ++ after
    /\ Z.of_nat (length pre) <= ctx
    /\ Z.of_nat (length post) <= ctx
    /\ (Z.of_nat (length pre) < ctx -> before = [])
    /\ (Z.of_nat (length post) < ctx -> after = [])
    /\ length (before ++ pre) = i.
Proof.
  intros Hctx Hi Hdrop.
  assert (length source = (i + length found + length r)%nat) as Hlen.
  { apply (f_equal length) in Hdrop. rewrite length_drop, length_app in Hdrop.
    lia. }
  set (st := Z.to_nat (Z.max 0 (Z.of_nat i - ctx))).
  set (en := Z.to_nat (Z.min (Z.of_nat (length source))
                         (Z.of_nat i + Z.of_nat (length found) + ctx))).
  replace (Z.max 0 (Z.of_nat i - ctx)) with (Z.of_nat st) by lia.
  replace (Z.min (Z.of_nat (length source))
             (Z.of_nat i + Z.of_nat (length found) + ctx))
    with (Z.of_nat en) by lia.
  replace (Z.of_nat i + Z.of_nat (length found))
    with (Z.of_nat (i + length found)) by lia.
  exists (take st source), (drop en source). cbn zeta.
  rewrite !substring_take_drop by lia.
  assert (take (i + length found - i) (drop i source) = found) as Hfound.
  { rewrite Hdrop. replace (i + length found - i)%nat with (length found) by lia.
    by rewrite take_app_length. }
  assert (drop (i + length found) source = r) as Hr.
  { rewrite <- drop_drop, Hdrop. by rewrite drop_app_length. }
  split; [done |]. rewrite Hr. split.
  - rewrite <- (take_drop st source) at 1. f_equal.
    rewrite <- (take_drop (i - st) (drop st source)) at 1. f_equal.
    rewrite drop_drop. replace (st + (i - st))%nat with i by lia.
    rewrite Hdrop. f_equal.
    rewrite <- (take_drop (en - (i + length found)) r) at 1. f_equal.
    rewrite <- Hr, drop_drop. f_equal. lia.
  - assert (length (take (i - st) (drop st source)) = (i - st)%nat) as Hpre
      by (rewrite length_take, length_drop; lia).
    assert (length (take (en - (i + length found)) r)
            = (en - (i + length found))%nat) as Hpost
      by (rewrite length_take; lia).
    assert (length (take st source) = st) as Hbefore
      by (rewrite length_take; lia).
    rewrite length_app, Hpre, Hpost, Hbefore.
    split; [lia |]. split; [lia |]. split; [| split; [| lia]].
    + intros Hlt. replace st with 0%nat by lia. done.
    + intros Hlt. apply drop_ge. lia.
Qed.

Lemma source_snippet_not_found context sourceText activeNode :
  source_snippet context sourceText activeNode = NotFound
  <-> checkMatch (FlatNode.value activeNode) sourceText = false.
Proof.
  unfold source_snippet.
  destruct (FlatNode.value activeNode) as [| b | x | s | items | members];
    try (rewrite checkMatch_other by done; simpl; rewrite ?orb_true_r;
         by split).
  rewrite checkMatch_string. simpl. rewrite orb_false_r, negb_involutive.
  destruct (bool_decide_reflect (s = [])) as [-> | Hs]; [by split |].
  destruct (bool_decide (length (trim s) = 0%nat)); [by split |]. simpl.
  rewrite <- indexOf_absent.
  destruct (Z.eqb_spec (indexOf sourceText (trim s)) (-1)); by split.
Qed.

(** X19. The snippet shows the match in its place.  The message that
    the value was not found is given exactly when [checkMatch] is
    false.  When a snippet is shown, its middle is the trimmed value,
    at its first occurrence in the source text; before and after it
    come the code units that surround it in the source text, at most
    [context] of them on each side, and fewer only where the source
    text starts or ends. *)
Theorem source_snippet_spec (context : Z) (sourceText : jsstring)
    (activeNode : FlatNode) :
  0 <= context ->
  (source_snippet context sourceText activeNode = NotFound
   <-> checkMatch (FlatNode.value activeNode) sourceText = false)
  /\ (forall pre found post,
        source_snippet context sourceText activeNode = Snippet pre found post ->
        exists s before after,
          FlatNode.value activeNode = JStr s
          /\ found = trim s /\ found <> []
          /\ sourceText = before ++ pre ++ found ++ post ++ after
          /\ Z.of_nat (length pre) <= context
          /\ Z.of_nat (length post) <= context
          /\ (Z.of_nat (length pre) < context -> before = [])
          /\ (Z.of_nat (length post) < context -> after = [])
          /\ first_occurrence sourceText found
             = Some (length (before ++ pre))).
Proof.
  intros Hctx. split; [apply source_snippet_not_found |].
  intros pre found post. unfold source_snippet.
  destruct (FlatNode.value activeNode) as [| b | x | s | items | members];
    try (simpl; rewrite ?orb_true_r; discriminate).
  simpl. rewrite orb_false_r, negb_involutive.
  destruct (bool_decide_reflect (s = [])) as [-> | Hs]; [discriminate |].
  destruct (bool_decide_reflect (length (trim s) = 0%nat)) as [Hlen | Hlen];
    [discriminate |].
  unfold indexOf.
  destruct (first_occurrence sourceText (trim s)) as [i |] eqn:Hi;
    [| discriminate].
  destruct (Z.eqb_spec (Z.of_nat i) (-1)); [lia |].
  intros [= <- <- <-].
  destruct (first_occurrence_Some _ _ _ Hi) as [Hle [r Hr]].
  destruct (snippet_geometry context sourceText (trim s) i r Hctx Hle Hr)
    as (before & after & Hfound & Hsrc & Hpre & Hpost & Hb & Ha & Hpos).
  exists s, before, after. rewrite Hfound.
  split; [done |]. split; [done |].
  split; [by intros Hnil; rewrite Hnil in Hlen |].
  split; [done |].
  split; [done |]. split; [done |]. split; [done |]. split; [done |].
  by rewrite Hpos.
Qed.

Lemma source_snippet_spec_witness :
  0 <= 4
  /\ source_snippet 4 (js "the value y appears here")
       (row (js "r") (js "k") (JStr (js " y ")) 0)
     = Snippet (js "lue ") (js "y") (js " app")
  /\ exists s before after,
       JStr (js " y ") = JStr s
       /\ js "y" = trim s /\ js "y" <> []
       /\ js "the value y appears here"
          = before ++ js "lue " ++ js "y" ++ js " app" ++ after
       /\ Z.of_nat (length (js "lue ")) <= 4
       /\ Z.of_nat (length (js " app")) <= 4
       /\ (Z.of_nat (length (js "lue ")) < 4 -> before = [])
       /\ (Z.of_nat (length (js " app")) < 4 -> after = [])
       /\ first_occurrence (js "the value y appears here") (js "y")
          = Some (length (before ++ js "lue ")).
Proof.
  split; [lia |]. split; [reflexivity |].
  apply (proj2 (source_snippet_spec 4 (js "the value y appears here")
                  (row (js "r") (js "k") (JStr (js " y ")) 0)
                  ltac:(lia)) (js "lue ") (js "y") (js " app")).
  reflexivity.
Defined.

Lemma find_elem_of (nodes : list FlatNode) (f : FlatNode -> bool) node :
  List.find f nodes = Some node -> node ∈ nodes.
Proof.
  intros Hfind. apply list_elem_of_In. by apply find_some in Hfind as [? _].
Qed.

(** X20. The snippet agrees with the flag.  In a document whose match
    flags are in step with its source text, and which has a source
    text, both snippet renderers say that the value was not found
    exactly for rows flagged as not matching. *)
Theorem snippet_agrees_with_flag (doc : DocumentData) (node : FlatNode) :
  in_sync doc ->
  node ∈ DocumentData.flatNodes doc ->
  DocumentData.sourceText doc <> [] ->
  (focusSourceSnippet doc node = NotFound
   <-> FlatNode.isMatch node = Some false)
  /\ (forall nodeId,
        nodeId <> [] ->
        List.find (fun n => bool_decide (FlatNode.id n = nodeId))
          (DocumentData.flatNodes doc) = Some node ->
        (renderSourceSnippet doc (Some nodeId) = NotFound
         <-> FlatNode.isMatch node = Some false)).
Proof.
  intros Hsync Hin Hsrc.
  pose proof (proj1 (Forall_forall _ _) Hsync node Hin) as Hflag.
  simpl in Hflag.
  assert (forall context,
            source_snippet context (DocumentData.sourceText doc) node
            = NotFound <-> FlatNode.isMatch node = Some false) as Hboth.
  { intros context. rewrite source_snippet_not_found, Hflag.
    split; [by intros -> | by intros [= ->]]. }
  split.
  - unfold focusSourceSnippet. rewrite bool_decide_false by done. apply Hboth.
  - intros nodeId Hid Hfind. unfold renderSourceSnippet.
    rewrite bool_decide_false by done. rewrite bool_decide_false by done.
    rewrite Hfind. apply Hboth.
Qed.

Lemma snippet_agrees_with_flag_witness :
  let doc := (loadDocument rnd0 rnd1 (js "sample") sample_json
                (js "no such letter") 0%nat).1 in
  let node := FlatNode.mk (rnd0 1%nat) (js "b") (JStr (js "x")) 1 None
                (Some false) in
  in_sync doc
  /\ node ∈ DocumentData.flatNodes doc
  /\ DocumentData.sourceText doc <> []
  /\ (focusSourceSnippet doc node = NotFound
      <-> FlatNode.isMatch node = Some false)
  /\ rnd0 1%nat <> []
  /\ List.find (fun n => bool_decide (FlatNode.id n = rnd0 1%nat))
       (DocumentData.flatNodes doc) = Some node
  /\ (renderSourceSnippet doc (Some (rnd0 1%nat)) = NotFound
      <-> FlatNode.isMatch node = Some false).
Proof.
  intros doc node.
  assert (in_sync doc) as Hsync by (repeat constructor).
  assert (node ∈ DocumentData.flatNodes doc) as Hin.
  { apply elem_of_cons. right. apply elem_of_cons. by left. }
  assert (DocumentData.sourceText doc <> []) as Hsrc by discriminate.
  assert (rnd0 1%nat <> []) as Hid by discriminate.
  assert (List.find (fun n => bool_decide (FlatNode.id n = rnd0 1%nat))
            (DocumentData.flatNodes doc) = Some node) as Hfind
    by reflexivity.
  split; [exact Hsync |]. split; [exact Hin |]. split; [exact Hsrc |].
  split; [exact (proj1 (snippet_agrees_with_flag doc node Hsync Hin Hsrc)) |].
  split; [exact Hid |]. split; [exact Hfind |].
  exact (proj2 (snippet_agrees_with_flag doc node Hsync Hin Hsrc)
           (rnd0 1%nat) Hid Hfind).
Defined.
